(** * merge_clusters.py: a shallow embedding and its checked properties

    The development follows [merge_clusters.py] function by function.
    Python values are modelled as follows.

    - A [str] is the [string] of its UTF-8 bytes: equality, [in], splitting
      at an ASCII separator, joining and the code-point order of [sorted]
      are the same on the bytes as on the characters; [str.split],
      [str.join] and [sorted] are written out below.
    - A pandas data frame is the list of its rows, each row a record.
    - A [dict] is an association list in insertion order (Python dicts
      iterate in insertion order, and the mergers depend on it).
    - A [set] of strings is a duplicate-free list. CPython iterates a set of
      strings in an order that depends on the hash seed; the model iterates
      in first-insertion order. Every statement below is either about
      membership, or about an input on which the order cannot matter.
    - A float that is only compared ([edgeweight >= threshold],
      [value >= threshold]) is a rational [Q].
    - An exception that escapes a function is the [Raise] outcome of
      [result]; a [while] loop is run with fuel. *)

From Stdlib Require Import List String Ascii Bool Arith ZArith QArith Lia.
From Stdlib Require Import DecimalString DecimalNat FinFun Permutation.
From Stdlib Require PrimFloat Uint63.
Import ListNotations.

Open Scope string_scope.
Open Scope list_scope.
Open Scope nat_scope.

(** ** Python runtime *)

Module Py.

Inductive exn : Type :=
| UnboundLocalError (name : string)
| TypeError (msg : string)
| KeyError (key : string)
| AttributeError (msg : string)
| NetworkXError (msg : string)
| IndexError (msg : string)
| SystemExit (msg : string).

Inductive result (A : Type) : Type :=
| Ok (a : A)
| Raise (e : exn).

Arguments Ok {A} a.
Arguments Raise {A} e.

Definition bind {A B : Type} (r : result A) (k : A -> result B) : result B :=
  match r with
  | Ok a => k a
  | Raise e => Raise e
  end.

Fixpoint mapM {A B : Type} (f : A -> result B) (l : list A)
  : result (list B) :=
  match l with
  | [] => Ok []
  | a :: rest =>
      bind (f a) (fun b => bind (mapM f rest) (fun bs => Ok (b :: bs)))
  end.

(** [x in l] for a list (or set) of strings. *)
Definition mem (x : string) (l : list string) : bool :=
  existsb (String.eqb x) l.

(** [set(l)]: the distinct elements, first occurrence first. *)
Fixpoint set_ (l : list string) : list string :=
  match l with
  | [] => []
  | x :: rest => x :: filter (fun y => negb (String.eqb x y)) (set_ rest)
  end.

(** [s.update(t)] (also [s.union(t)]): the value of [s] afterwards. *)
Definition update (s t : list string) : list string :=
  s ++ filter (fun y => negb (mem y s)) (set_ t).

(** Truth value of [s & t]: the intersection is non-empty. *)
Definition intersects (s t : list string) : bool :=
  existsb (fun x => mem x t) s.

(** [s == t] for two sets. *)
Definition set_eqb (s t : list string) : bool :=
  forallb (fun x => mem x t) s && forallb (fun x => mem x s) t.

(** [s in l] for a list [l] of sets. *)
Definition set_in (s : list string) (l : list (list string)) : bool :=
  existsb (set_eqb s) l.

(** [s.split(sep)] for a one-character separator: every occurrence
    splits, so the result has at least one (possibly empty) field. *)
Fixpoint split_on (sep : ascii) (s : string) : list string :=
  match s with
  | EmptyString => [EmptyString]
  | String c rest =>
      if Ascii.eqb c sep then EmptyString :: split_on sep rest
      else match split_on sep rest with
           | [] => [String c EmptyString]
           | w :: ws => String c w :: ws
           end
  end.

(** [s.split(', ')]. *)
Fixpoint split_comma_space (s : string) : list string :=
  match s with
  | EmptyString => [EmptyString]
  | String c rest =>
      let keep :=
        match split_comma_space rest with
        | [] => [String c EmptyString]
        | w :: ws => String c w :: ws
        end in
      match rest with
      | String c2 rest2 =>
          if Ascii.eqb c "," && Ascii.eqb c2 " "
          then EmptyString :: split_comma_space rest2
          else keep
      | EmptyString => keep
      end
  end.

(** The whitespace characters at which [s.split()] splits, in UTF-8: the
    number of bytes of the whitespace character that [s] starts with, and
    [0] when it starts with none. These are U+0009..U+000D and
    U+001C..U+0020 (one byte each), U+0085 and U+00A0 (bytes 194 133 and
    194 160), U+1680 (225 154 128), U+2000..U+200A, U+2028, U+2029 and
    U+202F (226 128 followed by 128..138, 168, 169 or 175), U+205F
    (226 129 159) and U+3000 (227 128 128). *)
Definition space_width (s : string) : nat :=
  match s with
  | EmptyString => 0
  | String a rest =>
      let x := nat_of_ascii a in
      if ((9 <=? x) && (x <=? 13)) || ((28 <=? x) && (x <=? 32)) then 1
      else
        match rest with
        | EmptyString => 0
        | String b rest2 =>
            let y := nat_of_ascii b in
            if (x =? 194) && ((y =? 133) || (y =? 160)) then 2
            else
              match rest2 with
              | EmptyString => 0
              | String c _ =>
                  let z := nat_of_ascii c in
                  if ((x =? 225) && (y =? 154) && (z =? 128))
                     || ((x =? 226) && (y =? 128)
                         && (((128 <=? z) && (z <=? 138))
                             || (z =? 168) || (z =? 169) || (z =? 175)))
                     || ((x =? 226) && (y =? 129) && (z =? 159))
                     || ((x =? 227) && (y =? 128) && (z =? 128))
                  then 3
                  else 0
              end
        end
  end.

(** [s.split()]: fields separated by runs of whitespace, no empty field.
    [cur] is the field being read, [started] whether it has a character,
    [skip] the number of bytes still to pass of the whitespace character
    that was just met. *)
Fixpoint split_ws_go (s : string) (cur : string) (started : bool)
    (skip : nat) : list string :=
  match s with
  | EmptyString => if started then [cur] else []
  | String c rest =>
      match skip with
      | S k => split_ws_go rest cur started k
      | O =>
          match space_width s with
          | O => split_ws_go rest (cur ++ String c EmptyString) true 0
          | S k =>
              if started then cur :: split_ws_go rest EmptyString false k
              else split_ws_go rest EmptyString false k
          end
      end
  end.

Definition split_ws (s : string) : list string :=
  split_ws_go s EmptyString false 0.

(** [sep.join(l)]. *)
Fixpoint join (sep : string) (l : list string) : string :=
  match l with
  | [] => EmptyString
  | [x] => x
  | x :: rest => x ++ sep ++ join sep rest
  end.

(** [sorted(l)] for strings: insertion sort on the code-point order. *)
Fixpoint insert_sorted (x : string) (l : list string) : list string :=
  match l with
  | [] => [x]
  | y :: rest =>
      if String.leb x y then x :: l else y :: insert_sorted x rest
  end.

Definition sorted (l : list string) : list string :=
  fold_right insert_sorted [] l.

(** [str(n)] for an [int]. *)
Definition str_of_Z (z : Z) : string :=
  NilZero.string_of_int (Z.to_int z).

Definition str_of_nat (n : nat) : string :=
  NilZero.string_of_uint (Nat.to_uint n).

(** [d[k] = v] on an insertion-ordered dict: an existing key keeps its
    place, a new key goes last. *)
Fixpoint dict_set {V : Type} (d : list (string * V)) (k : string) (v : V)
  : list (string * V) :=
  match d with
  | [] => [(k, v)]
  | (k', v') :: rest =>
      if String.eqb k' k then (k', v) :: rest
      else (k', v') :: dict_set rest k v
  end.

Fixpoint dict_get {V : Type} (d : list (string * V)) (k : string)
  : option V :=
  match d with
  | [] => None
  | (k', v') :: rest => if String.eqb k' k then Some v' else dict_get rest k
  end.

Definition keys {V : Type} (d : list (string * V)) : list string :=
  map fst d.

(** Python values that [==] may compare across types. *)
Inductive value : Type :=
| VBool (b : bool)
| VStr (s : string).

(** [a == b]: a [bool] never equals a [str]. *)
Definition eqb (a b : value) : bool :=
  match a, b with
  | VBool x, VBool y => Bool.eqb x y
  | VStr x, VStr y => String.eqb x y
  | _, _ => false
  end.

End Py.

Import Py.

(** ** Data frames *)

(** A row of the concatenated cluster table [frame]. *)
Record ClusterRow : Type := mkClusterRow {
  ID : string;
  Members : string;
  Source : string
}.

(** A row of the coexpression edge table. *)
Record CoexRow : Type := mkCoexRow {
  gene1 : string;
  gene2 : string;
  edgeweight : Q
}.

(** A row of the transcript or metabolite table: the [feature] column and
    the numeric sample columns. *)
Record FeatureRow : Type := mkFeatureRow {
  feature : string;
  samples : list Q
}.

(** [df[df['Source'] == "DR_" + str(dr)]] followed by the loop that fills
    [cluster_dict] (lines 148-156 and 318-326). *)
Definition select_rows (df : list ClusterRow) (dr : Z) : list ClusterRow :=
  let decay_rate := ("DR_" ++ str_of_Z dr)%string in
  filter (fun row => String.eqb (Source row) decay_rate) df.

Definition build_cluster_dict (rows : list ClusterRow)
  : list (string * list string) :=
  fold_left
    (fun cluster_dict row =>
       dict_set cluster_dict (ID row) (split_on " " (Members row)))
    rows [].

(** ** merge_clusters_coex (lines 301-377) *)

Module Coex.

Record MergedRow : Type := mkMergedRow {
  mID : string;
  mMembers : string
}.

(** Lines 351-353: the genes on either end of an edge that has [gene] on
    one end and weight at least [threshold]. *)
Definition connected_genes (coexpression_df : list CoexRow)
    (threshold : Q) (gene : string) : list string :=
  let connections :=
    filter
      (fun r =>
         (String.eqb (gene1 r) gene && Qle_bool threshold (edgeweight r))
         || (String.eqb (gene2 r) gene && Qle_bool threshold (edgeweight r)))
      coexpression_df in
  update (set_ (map gene1 connections)) (set_ (map gene2 connections)).

(** Lines 350-357: the loop over the genes of [current_cluster]. The local
    [connected] is [None] while no assignment has bound it; the loop only
    ever assigns [True]. *)
Fixpoint gene_loop (coexpression_df : list CoexRow) (threshold : Q)
    (genes : list string) (other_cluster : list string)
    (connected : option bool) : option bool :=
  match genes with
  | [] => connected
  | gene :: rest =>
      if intersects (connected_genes coexpression_df threshold gene)
                    (set_ other_cluster)
      then Some true
      else gene_loop coexpression_df threshold rest other_cluster connected
  end.

(** The variables one expansion pass reads and writes. *)
Record PassState : Type := mkPassState {
  current_cluster : list string;
  clusters_to_merge : list string;
  merge_occurred : bool;
  connected : option bool
}.

(** Lines 345-362: one pass over [cluster_dict.items()]. [visited] is
    [visited_clusters], which the pass reads and does not change. *)
Fixpoint pass (coexpression_df : list CoexRow) (threshold : Q)
    (visited : list string) (cluster_key : string)
    (items : list (string * list string)) (st : PassState)
  : result PassState :=
  match items with
  | [] => Ok st
  | (other_key, other_cluster) :: rest =>
      if mem other_key visited || String.eqb other_key cluster_key
      then pass coexpression_df threshold visited cluster_key rest st
      else
        let connected' :=
          gene_loop coexpression_df threshold (current_cluster st)
                    other_cluster (connected st) in
        match connected' with
        | None => Raise (UnboundLocalError "connected")
        | Some true =>
            pass coexpression_df threshold visited cluster_key rest
              (mkPassState (update (current_cluster st) other_cluster)
                           (clusters_to_merge st ++ [other_key])
                           true
                           connected')
        | Some false =>
            pass coexpression_df threshold visited cluster_key rest
              (mkPassState (current_cluster st) (clusters_to_merge st)
                           (merge_occurred st) connected')
        end
  end.

(** What survives a seed's [while] loop. *)
Record LoopState : Type := mkLoopState {
  l_current : list string;
  l_visited : list string;
  l_connected : option bool
}.

(** Lines 341-365: the [while merge_occurred] loop, entered with
    [merge_occurred = True]. [None] means the fuel ran out. *)
Fixpoint while_loop (fuel : nat) (coexpression_df : list CoexRow)
    (threshold : Q) (cluster_dict : list (string * list string))
    (cluster_key : string) (st : LoopState) : option (result LoopState) :=
  match fuel with
  | O => None
  | S fuel' =>
      match pass coexpression_df threshold (l_visited st) cluster_key
                 cluster_dict
                 (mkPassState (l_current st) [] false (l_connected st)) with
      | Raise e => Some (Raise e)
      | Ok p =>
          let st' :=
            mkLoopState (current_cluster p)
                        (update (l_visited st) (clusters_to_merge p))
                        (connected p) in
          if merge_occurred p
          then while_loop fuel' coexpression_df threshold cluster_dict
                          cluster_key st'
          else Some (Ok st')
      end
  end.

(** The variables that live across the seeds of the outer [for]. *)
Record OuterState : Type := mkOuterState {
  merged_clusters : list MergedRow;
  visited_clusters : list string;
  o_connected : option bool
}.

(** Lines 333-371: the loop over the seeds. *)
Fixpoint seed_loop (fuel : nat) (coexpression_df : list CoexRow)
    (threshold : Q) (cluster_dict : list (string * list string))
    (seeds : list (string * list string)) (st : OuterState)
  : option (result (list MergedRow)) :=
  match seeds with
  | [] => Some (Ok (merged_clusters st))
  | (cluster_key, cluster) :: rest =>
      if mem cluster_key (visited_clusters st)
      then seed_loop fuel coexpression_df threshold cluster_dict rest st
      else
        match while_loop fuel coexpression_df threshold cluster_dict
                         cluster_key
                         (mkLoopState (set_ cluster) (visited_clusters st)
                                      (o_connected st)) with
        | None => None
        | Some (Raise e) => Some (Raise e)
        | Some (Ok l) =>
            let unique_members := join " " (sorted (l_current l)) in
            seed_loop fuel coexpression_df threshold cluster_dict rest
              (mkOuterState
                 (merged_clusters st
                    ++ [mkMergedRow cluster_key unique_members])
                 (update (l_visited l) [cluster_key])
                 (l_connected l))
        end
  end.

(** [merge_clusters_coex(df, coexpression_df, dr, threshold)]; every
    [while] loop gets [fuel] passes. *)
Definition merge_clusters_coex (fuel : nat) (df : list ClusterRow)
    (coexpression_df : list CoexRow) (dr : Z) (threshold : Q)
  : option (result (list MergedRow)) :=
  let cluster_dict := build_cluster_dict (select_rows df dr) in
  seed_loop fuel coexpression_df threshold cluster_dict cluster_dict
            (mkOuterState [] [] None).

End Coex.


(** ** split_and_match (lines 117-132) *)

(** A row of [cluster_df] inside [merge_clusters_fingerprinting]: the
    [Cluster] column holds a list of cluster IDs, [Merged Members] a
    string. *)
Record FpRow : Type := mkFpRow {
  Cluster : list string;
  Merged_Members : string
}.

(** [row[column]] followed by [.split(',')]: only [Merged Members] holds a
    string; the [Cluster] list has no [split], any other label is not a
    key of the row. *)
Definition row_column_split (row : FpRow) (column : string)
  : result (list string) :=
  if String.eqb column "Merged Members"
  then Ok (split_on "," (Merged_Members row))
  else if String.eqb column "Cluster"
  then Raise (AttributeError "'list' object has no attribute 'split'")
  else Raise (KeyError column).

(** Lines 130-131 on the list [merged_members]. *)
Definition matching_of (merged_members : list string)
    (metabolite_df : list FeatureRow) : list string :=
  filter (fun metabolite => mem metabolite (map feature metabolite_df))
         merged_members.

Definition unmatching_of (merged_members matching : list string)
  : list string :=
  filter (fun metabolite => negb (mem metabolite matching)) merged_members.

Definition split_and_match (row : FpRow) (metabolite_df : list FeatureRow)
    (column : string) : result (list string * list string) :=
  bind (row_column_split row column) (fun merged_members =>
    let matching := matching_of merged_members metabolite_df in
    let unmatching := unmatching_of merged_members matching in
    Ok (matching, unmatching)).

(** ** merge_clusters_overlapping (lines 134-215) *)

Module Overlap.

Record MergedRow : Type := mkMergedRow {
  mID : string;
  Metabolites : string;
  Genes : string
}.

(** Line 159: [[set(cluster_dict[key]) for key in cluster_dict]]. *)
Definition clusters_of (cluster_dict : list (string * list string))
  : list (list string) :=
  map (fun kv => set_ (snd kv)) cluster_dict.

(** Lines 168-171. *)
Definition record_anchor (m_elements : list (string * list nat))
    (m : string) (i : nat) : list (string * list nat) :=
  match dict_get m_elements m with
  | Some indices => dict_set m_elements m (indices ++ [i])
  | None => dict_set m_elements m [i]
  end.

(** Lines 165-171: [enumerate(clusters)] from index [i]. *)
Fixpoint populate (metabolite_features : list string) (i : nat)
    (clusters : list (list string)) (m_elements : list (string * list nat))
  : list (string * list nat) :=
  match clusters with
  | [] => m_elements
  | cluster :: rest =>
      let m_star :=
        filter (fun element => mem element metabolite_features) cluster in
      populate metabolite_features (S i) rest
        (fold_left (fun d m => record_anchor d m i) m_star m_elements)
  end.

(** [visited_clusters.add(index)] on a set of indices. *)
Definition add_index (index : nat) (visited : list nat) : list nat :=
  if existsb (Nat.eqb index) visited then visited else visited ++ [index].

(** Lines 185-189: the first existing merged set that meets
    [new_merged_set] takes it in, and the search stops ([break]). [None]
    when no existing set meets it (the [for] runs to its [else]). *)
Fixpoint update_first (merged_clusters : list (list string))
    (new_merged_set : list string) : option (list (list string)) :=
  match merged_clusters with
  | [] => None
  | existing_cluster :: rest =>
      if intersects existing_cluster new_merged_set
      then Some (update existing_cluster new_merged_set :: rest)
      else option_map (cons existing_cluster)
                      (update_first rest new_merged_set)
  end.

(** Lines 185-192: the [for ... else] as a whole. *)
Definition absorb (merged_clusters : list (list string))
    (new_merged_set : list string) : list (list string) :=
  match update_first merged_clusters new_merged_set with
  | Some merged' => merged'
  | None =>
      if set_in new_merged_set merged_clusters then merged_clusters
      else merged_clusters ++ [new_merged_set]
  end.

Record MergeState : Type := mkMergeState {
  merged_clusters : list (list string);
  visited_clusters : list nat
}.

(** Lines 179-182: the union of the clusters that share the anchor. *)
Definition merged_set_of (clusters : list (list string)) (indices : list nat)
  : list string :=
  fold_left (fun merged_set index => update merged_set (nth index clusters []))
            indices [].

(** Lines 178-192: the body of the loop over [m_elements.items()]. Line 181
    has put every index of [indices] into [visited_clusters] before the
    search starts, so line 188 adds nothing to it. *)
Definition anchor_step (clusters : list (list string)) (st : MergeState)
    (indices : list nat) : MergeState :=
  if 1 <? List.length indices then
    let visited := fold_left (fun v index => add_index index v) indices
                             (visited_clusters st) in
    mkMergeState (absorb (merged_clusters st) (merged_set_of clusters indices))
                 visited
  else st.

(** Lines 196-198. *)
Fixpoint remaining (i : nat) (clusters : list (list string))
    (visited : list nat) : list (list string) :=
  match clusters with
  | [] => []
  | cluster :: rest =>
      if existsb (Nat.eqb i) visited then remaining (S i) rest visited
      else cluster :: remaining (S i) rest visited
  end.

(** Lines 148-198: the final value of [merged_clusters]. *)
Definition merged_sets (df : list ClusterRow)
    (metabolite_features : list string) (dr : Z) : list (list string) :=
  let cluster_dict := build_cluster_dict (select_rows df dr) in
  let clusters := clusters_of cluster_dict in
  let m_elements := populate metabolite_features 0 clusters [] in
  let st := fold_left (anchor_step clusters) (map snd m_elements)
                      (mkMergeState [] []) in
  merged_clusters st ++ remaining 0 clusters (visited_clusters st).

(** Lines 206-207. *)
Definition metabolites_of (metabolite_features cluster : list string)
  : list string :=
  filter (fun element => mem element metabolite_features) cluster.

Definition genes_of (metabolite_features cluster : list string)
  : list string :=
  filter (fun element => negb (mem element metabolite_features)) cluster.

(** Lines 205-213: row [i] of [merged_df], counted from 0. *)
Fixpoint rows_from (i : nat) (metabolite_features : list string)
    (merged : list (list string)) : list MergedRow :=
  match merged with
  | [] => []
  | cluster :: rest =>
      mkMergedRow ("MC_" ++ str_of_nat (i + 1))
                  (join " " (metabolites_of metabolite_features cluster))
                  (join " " (genes_of metabolite_features cluster))
      :: rows_from (S i) metabolite_features rest
  end.

Definition merge_clusters_overlapping (df : list ClusterRow)
    (metabolite_features : list string) (dr : Z) : list MergedRow :=
  rows_from 0 metabolite_features (merged_sets df metabolite_features dr).

End Overlap.


(** ** merge_clusters_fingerprinting (lines 218-287) *)

Module Fingerprint.

(** An undirected [networkx.Graph]: the nodes in insertion order and one
    weighted edge per unordered pair of nodes. *)
Record Graph : Type := mkGraph {
  nodes : list string;
  edges : list (string * string * Q)
}.

Definition empty_graph : Graph := mkGraph [] [].

(** [G.add_node(i)]. *)
Definition add_node (G : Graph) (i : string) : Graph :=
  if mem i (nodes G) then G else mkGraph (nodes G ++ [i]) (edges G).

Definition same_edge (i j : string) (e : string * string * Q) : bool :=
  let '(u, v, _) := e in
  (String.eqb u i && String.eqb v j) || (String.eqb u j && String.eqb v i).

(** [G.add_edge(i, j, weight=value)]: missing end points become nodes; an
    edge that exists already only gets the new weight. *)
Definition add_edge (G : Graph) (i j : string) (value : Q) : Graph :=
  let G' := add_node (add_node G i) j in
  if existsb (same_edge i j) (edges G')
  then mkGraph (nodes G')
               (map (fun e => if same_edge i j e then (fst (fst e), snd (fst e), value)
                              else e)
                    (edges G'))
  else mkGraph (nodes G') (edges G' ++ [(i, j, value)]).

Definition has_edge (G : Graph) (i j : string) : bool :=
  existsb (same_edge i j) (edges G).

(** The association matrix [corr_df]: for every index label the items
    (column label, value) of its row. *)
Definition CorrFrame : Type := list (string * list (string * Q)).

(** Lines 239-241: the loop over [row.items()]. *)
Definition add_row_edges (threshold : Q) (i : string)
    (row : list (string * Q)) (G : Graph) : Graph :=
  fold_left
    (fun G jv =>
       let '(j, value) := jv in
       if negb (String.eqb i j) && Qle_bool threshold value
       then add_edge G i j value
       else G)
    row G.

(** Lines 234-241. *)
Definition build_graph (corr_df : CorrFrame) (threshold : Q) : Graph :=
  fold_left
    (fun G irow =>
       let '(i, row) := irow in
       add_row_edges threshold i row (add_node G i))
    corr_df empty_graph.

(** A row of the data frame the function returns. *)
Record OutRow : Type := mkOutRow {
  oCluster : string;
  metabolites : string;
  genes : string
}.

(** A positional argument passed through [DataFrame.apply(..., args=...)]. *)
Inductive arg : Type :=
| AFrame (df : list FeatureRow)
| AStr (s : string).

(** The call [split_and_match(row, *args)] that [apply] makes for a row:
    the function has three positional parameters and no default value. *)
Definition call_split_and_match (row : FpRow) (args : list arg)
  : result (list string * list string) :=
  match args with
  | [AFrame metabolite_df; AStr column] =>
      split_and_match row metabolite_df column
  | _ =>
      Raise (TypeError "split_and_match() missing 1 required positional argument: 'column'")
  end.

(** Line 268: [raw_df.set_index('ID')['Members'].to_dict()]. *)
Definition id_to_members_of (raw_df : list ClusterRow)
  : list (string * string) :=
  fold_left (fun d row => dict_set d (ID row) (Members row)) raw_df [].

(** Lines 271-273. *)
Definition merge_members (id_to_members : list (string * string))
    (cluster : list string) : string :=
  join ", "
    (map (fun cluster_id =>
            match dict_get id_to_members cluster_id with
            | Some members => members
            | None => ""
            end)
         cluster).

(** Line 253, for one cluster of matrix indices. *)
Definition column_names (corr_df : CorrFrame) (cluster : list nat)
  : result (list string) :=
  mapM (fun i => match nth_error (map fst corr_df) i with
                 | Some label => Ok label
                 | None => Raise (IndexError "index out of bounds")
                 end)
       cluster.

Section Libraries.

(** networkx and markov_clustering are used through three calls; their
    code is not part of this program. *)
Variable sparse : Type.
Variable to_scipy_sparse_array : Graph -> result sparse.
Variable run_mcl : sparse -> result sparse.
Variable get_clusters : sparse -> list (list nat).

(** Lines 260-285 for one row of [cluster_df]. *)
Definition output_row (raw_df : list ClusterRow)
    (metabolite_df : list FeatureRow) (names : list string)
  : result OutRow :=
  let cluster := split_on "," (join "," names) in
  let row := mkFpRow cluster (merge_members (id_to_members_of raw_df) cluster) in
  bind (call_split_and_match row [AFrame metabolite_df]) (fun mg =>
    Ok (mkOutRow (join ", " cluster) (join ", " (fst mg)) (join ", " (snd mg)))).

(** [merge_clusters_fingerprinting(raw_df, corr_df, metabolite_df,
    threshold, inflation)]. The body never reads [inflation]: [run_mcl] is
    called with its defaults (line 247). *)
Definition merge_clusters_fingerprinting (raw_df : list ClusterRow)
    (corr_df : CorrFrame) (metabolite_df : list FeatureRow)
    (threshold inflation : Q) : result (list OutRow) :=
  let G := build_graph corr_df threshold in
  bind (to_scipy_sparse_array G) (fun adjacency_matrix =>
  bind (run_mcl adjacency_matrix) (fun result_matrix =>
  let clusters := get_clusters result_matrix in
  bind (mapM (column_names corr_df) clusters) (fun clustered_columns =>
  mapM (output_row raw_df metabolite_df) clustered_columns))).

End Libraries.

End Fingerprint.

(** ** fill_extracted_rows (lines 380-397) *)

(** [df[df['feature'] == element]]. *)
Definition rows_with_feature (df : list FeatureRow) (element : string)
  : list FeatureRow :=
  filter (fun r => String.eqb (feature r) element) df.

(** Lines 387-395: the loop over [elements_list]. *)
Fixpoint extract_loop (elements_list : list string)
    (transcripts_df metabolite_df : list FeatureRow)
    (extracted_rows_combined : list FeatureRow) : result (list FeatureRow) :=
  match elements_list with
  | [] => Ok extracted_rows_combined
  | element :: rest =>
      if mem element (map feature transcripts_df) then
        let extracted_row := rows_with_feature transcripts_df element in
        extract_loop rest transcripts_df metabolite_df
                     (extracted_rows_combined ++ extracted_row)
      else if mem element (map feature metabolite_df) then
        let extracted_row := rows_with_feature metabolite_df element in
        extract_loop rest transcripts_df metabolite_df
                     (extracted_rows_combined ++ extracted_row)
      else Raise (SystemExit "element is not found in either data frame!")
  end.

(** [row] is a row of [clusters_frame]: [row[0]] the ID, [row[1]] the
    members. *)
Definition fill_extracted_rows (row : string * string)
    (transcripts_df metabolite_df : list FeatureRow)
  : result (string * list FeatureRow) :=
  let cluster_id := fst row in
  let elements_str := snd row in
  let elements_list := split_ws elements_str in
  bind (extract_loop elements_list transcripts_df metabolite_df [])
       (fun extracted_rows_combined => Ok (cluster_id, extracted_rows_combined)).


(** ** The association matrix (lines 41-47 and 525-536) *)

Module Association.

Section Floats.

(** The type of the matrix entries with [0.0], [1.0], [2.0] and [-1.0],
    its addition, division and [<=]. *)
Variable F : Type.
Variable zero one two minus_one : F.
Variable add div : F -> F -> F.
Variable leb : F -> F -> bool.
(** [np.corrcoef(Fi, Fj)[0, 1]]. *)
Variable corrcoef01 : list F -> list F -> F.

(** Lines 41-47. *)
Definition association_strength (Fi Fj : list F) : F :=
  let corr_coeff := corrcoef01 Fi Fj in
  let strength := div (add one corr_coeff) two in
  strength.

(** Lines 531-536: the cell [(i, j)]. *)
Definition cell (fingerprints : list (list F)) (i j : nat) : F :=
  if i =? j then one
  else
    let Fi := nth i fingerprints [] in
    let Fj := nth j fingerprints [] in
    association_strength Fi Fj.

(** Lines 525-536: the matrix, row by row. *)
Definition correlation_matrix (fingerprints : list (list F))
  : list (list F) :=
  let n := List.length fingerprints in
  map (fun i => map (fun j => cell fingerprints i j) (seq 0 n)) (seq 0 n).

(** [correlation_matrix[i, j]]. *)
Definition value (correlation_matrix : list (list F)) (i j : nat) : F :=
  nth j (nth i correlation_matrix []) zero.



End Floats.

End Association.

(** ** main: the merge dispatch (lines 481-591) *)

Module Main.

(** The fields of [Options] that the dispatch reads. [merge_clusters] is the
    [store_true] flag [-mc]; [merge_method] is the string of [-mm]. *)
Record Options : Type := mkOptions {
  targeted_list : string;
  merge_clusters : bool;
  merge_method : string;
  decay_rate : Z;
  evidence : bool;
  evidence_source : string;
  quantitation_matrix : string
}.

(** A table handed to [gizmos.export_to_sql], with its name. *)
Inductive Export : Type :=
| ExportOverlap (table_name : string) (merged_df : list Overlap.MergedRow)
| ExportFingerprint (table_name : string)
                    (cluster_dataframe : list Fingerprint.OutRow)
| ExportCoex (table_name : string) (merged_df : list Coex.MergedRow).

(** The arm of the [if]/[elif] chain of lines 483-591 that runs. *)
Inductive Branch : Type :=
| BrOverlap
| BrFingerprinting
| BrCoexpression
| BrInvalid.

(** The conditions of lines 483, 513, 551 and 590, in order. Line 513
    compares the flag [Options.merge_clusters] with the string. *)
Definition dispatch (o : Options) : Branch :=
  if String.eqb (merge_method o) "overlap" then BrOverlap
  else if Py.eqb (VBool (merge_clusters o)) (VStr "fingerprinting")
  then BrFingerprinting
  else if String.eqb (merge_method o) "coexpression" then BrCoexpression
  else BrInvalid.

(** Truth value of a string and of an int. *)
Definition truthy_str (s : string) : bool := negb (String.eqb s "").
Definition truthy_int (z : Z) : bool := negb (Z.eqb z 0).

(** Lines 503-511 and 580-588. *)
Definition table_name_for (o : Options) (tablename : string) : string :=
  if truthy_int (decay_rate o)
  then (tablename ++ "_DR_" ++ str_of_Z (decay_rate o))%string
  else tablename.

(** Lines 487-491: the [metabolites] column of the targeted list, split,
    exploded and de-duplicated. *)
Definition deduplicated_metabolites_of (targeted_metabolites : list string)
  : list string :=
  set_ (flat_map split_comma_space targeted_metabolites).

Section Inputs.

(** What [main] has loaded when it reaches line 481. *)
Variable frame : list ClusterRow.
Variable metabolite_df : list FeatureRow.
(** The [metabolites] column of [pd.read_csv(Options.targeted_list)]. *)
Variable targeted_metabolites : list string.
(** [pd.read_csv(Options.quantitation_matrix)] read as an edge table. *)
Variable coexpression_df : list CoexRow.
(** Lines 515-546: fingerprints, association matrix and the call of
    [merge_clusters_fingerprinting]. *)
Variable fingerprinting_arm : result (list Fingerprint.OutRow).

(** Lines 485-498. *)
Definition overlap_arm (o : Options) : list Overlap.MergedRow :=
  if truthy_str (targeted_list o) then
    Overlap.merge_clusters_overlapping
      frame (deduplicated_metabolites_of targeted_metabolites) (decay_rate o)
  else
    let metabolite_features := map feature metabolite_df in
    Overlap.merge_clusters_overlapping frame metabolite_features
                                       (decay_rate o).

(** Lines 556-575; the threshold is the default [0.5]. *)
Definition coexpression_arm (fuel : nat) (o : Options)
  : option (result (list Coex.MergedRow)) :=
  if evidence o then
    if String.eqb (evidence_source o) "coex" then
      if truthy_str (quantitation_matrix o) then
        Coex.merge_clusters_coex fuel frame coexpression_df (decay_rate o)
                                 (1 # 2)
      else Some (Raise (SystemExit "Coexpression table is not provided."))
    else Some (Raise (SystemExit "Evidence source is not coexpression."))
  else Some (Raise (SystemExit "Evidence is not set to True.")).

(** Lines 481-591: the tables exported, or the exception that ends the
    run. [None] only when a [while] loop of the coexpression merger runs
    out of [fuel]. *)
Definition main_merge (fuel : nat) (o : Options)
  : option (result (list Export)) :=
  if merge_clusters o then
    match dispatch o with
    | BrOverlap =>
        Some (Ok [ExportOverlap
                    (table_name_for o "merged_cluster_overlap_metabolites")
                    (overlap_arm o)])
    | BrFingerprinting =>
        Some (bind fingerprinting_arm (fun cluster_dataframe =>
                Ok [ExportFingerprint "merged_clusters_fingerprint"
                                      cluster_dataframe]))
    | BrCoexpression =>
        match coexpression_arm fuel o with
        | None => None
        | Some r =>
            Some (bind r (fun merged_df =>
                    Ok [ExportCoex (table_name_for o "merged_cluster_coex")
                                   merged_df]))
        end
    | BrInvalid =>
        Some (Raise (SystemExit
                       "Not a valid method for merging cluster. Try again!"))
    end
  else Some (Ok []).

End Inputs.

End Main.


(** ** Inputs used in the statements below *)

(** The coexpression scenario: clusters [X = g1], [Y = g2] at decay rate 25
    and the single edge [(g1, g2, 0.9)]. *)
Definition scenario_clusters : list ClusterRow :=
  [mkClusterRow "X" "g1" "DR_25"; mkClusterRow "Y" "g2" "DR_25"].

Definition scenario_edges : list CoexRow :=
  [mkCoexRow "g1" "g2" (9 # 10)].

(** The same with a third cluster [Z = g3] that no edge touches. *)
Definition scenario_clusters_Z : list ClusterRow :=
  scenario_clusters ++ [mkClusterRow "Z" "g3" "DR_25"].

(** networkx refuses to convert a graph without nodes. *)
Definition nx_to_scipy_sparse_array (G : Fingerprint.Graph)
  : result Fingerprint.Graph :=
  match Fingerprint.nodes G with
  | [] => Raise (NetworkXError "Graph has no nodes or edges")
  | _ :: _ => Ok G
  end.

(** A partitioner that puts every node of the graph in a cluster of its
    own. *)
Definition singleton_clusters (G : Fingerprint.Graph) : list (list nat) :=
  map (fun i => [i]) (seq 0 (List.length (Fingerprint.nodes G))).

(** A [-mc -mm fingerprinting] invocation. *)
Definition fingerprinting_options : Main.Options :=
  Main.mkOptions "" true "fingerprinting" 25 false "" "transcripts.csv".

(** The entries of [cluster_dict] that a pass for seed [cluster_key] does
    not skip (line 346). *)
Definition pending (visited : list string) (cluster_key : string)
    (cluster_dict : list (string * list string))
  : list (string * list string) :=
  filter (fun kv => negb (mem (fst kv) visited
                          || String.eqb (fst kv) cluster_key))
         cluster_dict.

(** A state that one more pass leaves as it is, with nothing absorbed. *)
Definition pass_fixed_point (coexpression_df : list CoexRow) (threshold : Q)
    (cluster_dict : list (string * list string)) (cluster_key : string)
    (st : Coex.LoopState) : Prop :=
  Coex.pass coexpression_df threshold (Coex.l_visited st) cluster_key
            cluster_dict
            (Coex.mkPassState (Coex.l_current st) [] false
                              (Coex.l_connected st))
  = Ok (Coex.mkPassState (Coex.l_current st) [] false (Coex.l_connected st)).

(** The two ways in which a seed's [while] loop leaves: it returns a state
    that is a fixed point of the pass, or the unbound [connected] ends it
    with an exception before any fixed point is reached. Running out of
    fuel is neither. *)
Definition fixed_point_or_unbound (coexpression_df : list CoexRow)
    (threshold : Q) (cluster_dict : list (string * list string))
    (cluster_key : string) (r : option (result Coex.LoopState)) : Prop :=
  match r with
  | Some (Ok st') =>
      pass_fixed_point coexpression_df threshold cluster_dict cluster_key st'
  | Some (Raise e) => e = UnboundLocalError "connected"
  | None => False
  end.

(** No two sets of the list have a common element. *)
Fixpoint pairwise_disjointb (l : list (list string)) : bool :=
  match l with
  | [] => true
  | s :: rest =>
      forallb (fun t => negb (intersects s t)) rest && pairwise_disjointb rest
  end.

(** Two clusters that share the gene [g2] and contain no anchor. *)
Definition shared_gene_clusters : list ClusterRow :=
  [mkClusterRow "A" "g1 g2" "DR_25"; mkClusterRow "B" "g2 g3" "DR_25"].


(** Three anchors, each shared by two clusters; the clusters of [m3]
    contain the genes [a] and [c] of the first two groups. Every cluster
    holds one anchor, so the anchors are met in the order [m1], [m2],
    [m3] whatever the iteration order of a set. *)
Definition bridge_clusters : list ClusterRow :=
  [mkClusterRow "c0" "m1 a" "DR_25"; mkClusterRow "c1" "m1 b" "DR_25";
   mkClusterRow "c2" "m2 c" "DR_25"; mkClusterRow "c3" "m2 d" "DR_25";
   mkClusterRow "c4" "m3 a c" "DR_25"; mkClusterRow "c5" "m3 e" "DR_25"].

(** [v] is the value of the association matrix in row [i], column [j]. *)
Definition entry (corr_df : Fingerprint.CorrFrame) (i j : string) (v : Q)
  : Prop :=
  exists row, In (i, row) corr_df /\ In (j, v) row.

(** Two clusters with perfectly correlated fingerprints: every entry of
    the matrix is 1.0. *)
Definition perfect_pair : Fingerprint.CorrFrame :=
  [("A", [("A", 1%Q); ("B", 1%Q)]); ("B", [("A", 1%Q); ("B", 1%Q)])].

(** Two clusters with association strength 0.5. *)
Definition half_pair : Fingerprint.CorrFrame :=
  [("A", [("A", 1%Q); ("B", 1 # 2)]); ("B", [("A", 1 # 2); ("B", 1%Q)])].

(** An overlap run with a targeted list that names [m1] only, on one
    cluster that holds the metabolites [m1] and [m2] and the gene [g1]. *)
Definition targeted_options : Main.Options :=
  Main.mkOptions "targets.csv" true "overlap" 25 false "" "transcripts.csv".

(** The same run without [-l]. *)
Definition untargeted_options : Main.Options :=
  Main.mkOptions "" true "overlap" 25 false "" "transcripts.csv".

Definition targeted_frame : list ClusterRow :=
  [mkClusterRow "cluster001_DR_25_1" "m1 m2 g1" "DR_25"].

Definition targeted_metabolite_df : list FeatureRow :=
  [mkFeatureRow "m1" [1 # 2]; mkFeatureRow "m2" [1 # 3]].

(** The overlap scenario of the specification: [A] and [B] share the
    anchor [m1], [C] holds no anchor; a fourth cluster belongs to another
    decay rate. *)
Definition overlap_scenario : list ClusterRow :=
  [mkClusterRow "A" "m1 g1 g2" "DR_25"; mkClusterRow "B" "m1 g3" "DR_25";
   mkClusterRow "C" "g4 g5" "DR_25"; mkClusterRow "D" "m1 g9" "DR_5"].

(** The indices, counted from [k], of the clusters that contain [m]. *)
Fixpoint positions (k : nat) (clusters : list (list string)) (m : string)
  : list nat :=
  match clusters with
  | [] => []
  | cluster :: rest =>
      if mem m cluster then k :: positions (S k) rest m
      else positions (S k) rest m
  end.

(** An entry of [m_elements] after more indices [p] were recorded for its
    key. *)
Definition extend (o : option (list nat)) (p : list nat)
  : option (list nat) :=
  match o, p with
  | None, [] => None
  | None, _ :: _ => Some p
  | Some l, _ => Some (l ++ p)
  end.

(** The member sets of the rows of a slice, in row order. *)
Definition member_sets (rows : list ClusterRow) : list (list string) :=
  map (fun row => set_ (split_on " " (Members row))) rows.

(** Lines 350-357 in one sentence: some gene of [current] lies on an edge
    of weight at least [threshold], and one of the two ends of that edge is
    in [other]. *)
Definition linked (coexpression_df : list CoexRow) (threshold : Q)
    (current other : list string) : Prop :=
  exists gene r,
    In gene current /\ In r coexpression_df
    /\ (gene1 r = gene \/ gene2 r = gene)
    /\ (threshold <= edgeweight r)%Q
    /\ (In (gene1 r) other \/ In (gene2 r) other).

(** [c in s] for a character. *)
Fixpoint has_char (c : ascii) (s : string) : bool :=
  match s with
  | EmptyString => false
  | String c' rest => Ascii.eqb c' c || has_char c rest
  end.

(** ** annotate_clusters (lines 62-85) *)

(** A row of the annotation file. *)
Record AnnotationRow : Type := mkAnnotationRow {
  gene : string;
  annotation : string
}.

(** [row[i]] by position. *)
Definition row_at (row : list string) (i : nat) : result string :=
  match nth_error row i with
  | Some x => Ok x
  | None => Raise (IndexError "index out of bounds")
  end.

(** Lines 71-76: the loop over [elements_list]. *)
Fixpoint annotate_loop (elements_list : list string)
    (annotation_df : list AnnotationRow)
    (extracted_rows_combined : list AnnotationRow) : list AnnotationRow :=
  match elements_list with
  | [] => extracted_rows_combined
  | element :: rest =>
      if mem element (map gene annotation_df) then
        let extracted_row :=
          filter (fun r => String.eqb (gene r) element) annotation_df in
        annotate_loop rest annotation_df
                      (extracted_rows_combined ++ extracted_row)
      else annotate_loop rest annotation_df extracted_rows_combined
  end.

(** [annotate_clusters(row, gene_col_index, output_folder)], with
    [annotation_df] the table read from [Options.annotation_file]. The
    function returns nothing; the value here is the file it writes: the
    two arguments of [os.path.join] and the rows. *)
Definition annotate_clusters (annotation_df : list AnnotationRow)
    (row : list string) (gene_col_index : nat) (output_folder : string)
  : result (string * string * list AnnotationRow) :=
  bind (row_at row 0) (fun cluster_id =>
  bind (row_at row gene_col_index) (fun elements_str =>
    let elements_list := split_ws elements_str in
    let extracted_rows_combined :=
      annotate_loop elements_list annotation_df [] in
    let filename := (cluster_id ++ ".csv")%string in
    Ok (output_folder, filename, extracted_rows_combined))).

(** ** main: the IDs of the clusters (lines 460-469) *)

Fixpoint zeros_str (k : nat) : string :=
  match k with
  | O => EmptyString
  | S k' => String "0" (zeros_str k')
  end.

(** The format [{i:03d}]: at least three digits, padded with zeros. *)
Definition format_03d (i : nat) : string :=
  let s := str_of_nat i in
  (zeros_str (3 - String.length s) ++ s)%string.

(** A row of a table of clusters as the database gives it: the [Cluster]
    column as [astype(str)] renders it, [Members], and the [Source] column
    of the table itself, [None] for a missing value (NaN). *)
Record RawRow : Type := mkRawRow {
  rCluster : string;
  rMembers : string;
  rSource : option string
}.

(** A table of [all_files]. [tag] is group 1 of
    [re.search(r'(DR_\d+)', table_name)], [None] when the name has no such
    part; [has_source] tells whether the table has a column [Source] of
    its own (of strings and missing values). Every table has the columns
    [Cluster] and [Members]. *)
Record Table : Type := mkTable {
  tag : option string;
  has_source : bool;
  table_rows : list RawRow
}.

(** Lines 451-455: a table whose name holds a tag gets it in every row. A
    table without a tag keeps its own [Source]; without such a column the
    concatenation fills in NaN. *)
Definition tag_rows (df : Table) : list RawRow :=
  match tag df with
  | Some source_value =>
      map (fun row => mkRawRow (rCluster row) (rMembers row)
                               (Some source_value))
          (table_rows df)
  | None =>
      if has_source df then table_rows df
      else map (fun row => mkRawRow (rCluster row) (rMembers row) None)
               (table_rows df)
  end.

(** Line 458: [pd.concat(all_files.values(), axis=0, ignore_index=True)]. *)
Definition concat_tables (all_files : list Table) : list RawRow :=
  flat_map tag_rows all_files.

(** The concatenated frame has a column [Source] when one of the tables
    has. *)
Definition has_source_column (all_files : list Table) : bool :=
  existsb (fun df => match tag df with
                     | Some _ => true
                     | None => has_source df
                     end)
          all_files.

(** A row of [frame] after line 467. [None] is NaN. *)
Record FrameRow : Type := mkFrameRow {
  fID : option string;
  fMembers : string;
  fSource : option string
}.

(** Lines 460-467 for the rows from number [i] on: a string plus NaN is
    NaN, so a row without [Source] gets no ID. *)
Fixpoint assign_ids_from (i : nat) (frame : list RawRow) : list FrameRow :=
  match frame with
  | [] => []
  | row :: rest =>
      let cluster_id := ("cluster" ++ format_03d i)%string in
      mkFrameRow
        (match rSource row with
         | Some source =>
             Some (cluster_id ++ "_" ++ source ++ "_" ++ rCluster row)%string
         | None => None
         end)
        (rMembers row) (rSource row)
      :: assign_ids_from (S i) rest
  end.

(** [range(1, frame.shape[0] + 1)]: the rows are numbered from 1. *)
Definition assign_ids (frame : list RawRow) : list FrameRow :=
  assign_ids_from 1 frame.

(** Lines 451-467 for the tables [first :: others] ([all_files] is not
    empty when line 451 is reached): [frame["Source"]] raises [KeyError]
    when no table has brought the column. *)
Definition cluster_frame (first : Table) (others : list Table)
  : result (list FrameRow) :=
  let all_files := first :: others in
  if has_source_column all_files
  then Ok (assign_ids (concat_tables all_files))
  else Raise (KeyError "Source").

(** The IDs of the frame that are strings. *)
Definition string_ids (frame : list FrameRow) : list string :=
  flat_map (fun row => match fID row with
                       | Some id => [id]
                       | None => []
                       end)
           frame.

(** The rows that [df['Source'] == decay_rate] can select for some decay
    rate: the comparison is false for NaN. *)
Definition tagged_rows (frame : list FrameRow) : list ClusterRow :=
  flat_map (fun row => match fID row, fSource row with
                       | Some id, Some source =>
                           [mkClusterRow id (fMembers row) source]
                       | _, _ => []
                       end)
           frame.

(** A table for decay rate 25, then one whose name holds no decay rate
    and one for decay rate 5. *)
Definition table_DR_25 : Table :=
  mkTable (Some "DR_25") false [mkRawRow "1" "m1 g1" None].

Definition other_tables : list Table :=
  [mkTable None false [mkRawRow "1" "m2 g2" None;
                       mkRawRow "2" "m3 g3" None];
   mkTable (Some "DR_5") false [mkRawRow "1" "m1 g4" None]].

Definition is_digit (c : ascii) : bool :=
  let n := nat_of_ascii c in (48 <=? n) && (n <=? 57).

Fixpoint all_digits (s : string) : bool :=
  match s with
  | EmptyString => true
  | String c rest => is_digit c && all_digits rest
  end.

(** [k] leading zeros in front of a decimal number. *)
Fixpoint lead_zeros (k : nat) (d : Decimal.uint) : Decimal.uint :=
  match k with
  | O => d
  | S k' => Decimal.D0 (lead_zeros k' d)
  end.

(** U+00A0, the no-break space, in UTF-8. *)
Definition no_break_space : string :=
  String (ascii_of_nat 194) (String (ascii_of_nat 160) EmptyString).

(** U+2003, the em space, in UTF-8. *)
Definition em_space : string :=
  String (ascii_of_nat 226)
         (String (ascii_of_nat 128) (String (ascii_of_nat 131) EmptyString)).

(** ** The association matrix on binary64 floats and on rationals *)















(** ** The overlap merger for any order of the anchors *)

(** The index lists that the anchor loop of lines 177-192 goes through:
    the values of [m_elements], in the order of its keys. *)
Definition anchor_groups (metabolite_features : list string)
    (clusters : list (list string)) : list (list nat) :=
  map snd (Overlap.populate metabolite_features 0 clusters []).



(** The existing merged sets that [new_merged_set] meets (line 186). *)
Definition met (merged_clusters : list (list string))
    (new_merged_set : list string) : list (list string) :=
  filter (fun existing_cluster => intersects existing_cluster new_merged_set)
         merged_clusters.

(** In the run from [st] through [groups], no merged set built for an
    anchor meets more than one of the merged sets present at that time. *)
Fixpoint no_bridgeb (clusters : list (list string))
    (groups : list (list nat)) (st : Overlap.MergeState) : bool :=
  match groups with
  | [] => true
  | indices :: rest =>
      (if 1 <? List.length indices
       then List.length (met (Overlap.merged_clusters st)
                             (Overlap.merged_set_of clusters indices)) <=? 1
       else true)
      && no_bridgeb clusters rest (Overlap.anchor_step clusters st indices)
  end.



(** A chain [A], [B], [C] next to an earlier group [c0], [c1] whose gene
    [a] is also a member of [C]: the set built for [m2] meets both the set
    of [m0] and the set of [m1]. *)
Definition bridged_chain_clusters : list ClusterRow :=
  [mkClusterRow "c0" "m0 a" "DR_25"; mkClusterRow "c1" "m0 b" "DR_25";
   mkClusterRow "A" "m1 x" "DR_25"; mkClusterRow "B" "m1 m2" "DR_25";
   mkClusterRow "C" "m2 a" "DR_25"].

(** ** Facts about the Python runtime model *)

Lemma mem_true_iff (x : string) (l : list string) :
  mem x l = true <-> In x l.
Proof.
  unfold mem. rewrite existsb_exists. split.
  - intros [y [Hy Heq]]. apply String.eqb_eq in Heq. now subst.
  - intros H. exists x. split; [assumption | apply String.eqb_refl].
Qed.

Lemma mem_false_iff (x : string) (l : list string) :
  mem x l = false <-> ~ In x l.
Proof.
  rewrite <- mem_true_iff. destruct (mem x l); split; congruence.
Qed.

Lemma set_In (x : string) (l : list string) : In x (set_ l) <-> In x l.
Proof.
  induction l as [|y l IH]; simpl; [tauto|].
  rewrite filter_In, IH, negb_true_iff, String.eqb_neq.
  destruct (String.eqb_spec y x); [subst|]; tauto.
Qed.

Lemma set_NoDup (l : list string) : NoDup (set_ l).
Proof.
  induction l as [|y l IH]; simpl; constructor.
  - rewrite filter_In, String.eqb_refl. simpl. intros [_ H]. discriminate.
  - now apply NoDup_filter.
Qed.

Lemma update_In (x : string) (s t : list string) :
  In x (update s t) <-> In x s \/ In x t.
Proof.
  unfold update. rewrite in_app_iff, filter_In, set_In. cbv beta.
  rewrite negb_true_iff, mem_false_iff.
  destruct (in_dec String.string_dec x s); tauto.
Qed.

Lemma update_NoDup (s t : list string) : NoDup s -> NoDup (update s t).
Proof.
  intros Hs. unfold update. apply NoDup_app.
  - assumption.
  - apply NoDup_filter, set_NoDup.
  - intros a Ha Hf. apply filter_In in Hf. destruct Hf as [_ Hf].
    apply negb_true_iff, mem_false_iff in Hf. contradiction.
Qed.

Lemma intersects_true_iff (s t : list string) :
  intersects s t = true <-> exists x, In x s /\ In x t.
Proof.
  unfold intersects. rewrite existsb_exists.
  split; intros [x [H1 H2]]; exists x; split; auto;
    now apply mem_true_iff.
Qed.

Lemma intersects_false_iff (s t : list string) :
  intersects s t = false <-> forall x, In x s -> In x t -> False.
Proof.
  split.
  - intros H x Hs Ht.
    assert (Hi : intersects s t = true)
      by (apply intersects_true_iff; now exists x).
    congruence.
  - intros H. destruct (intersects s t) eqn:E; [|reflexivity].
    apply intersects_true_iff in E. destruct E as [x [Hs Ht]].
    destruct (H x Hs Ht).
Qed.

Lemma set_eqb_true_iff (s t : list string) :
  set_eqb s t = true <-> (forall x, In x s <-> In x t).
Proof.
  unfold set_eqb. rewrite andb_true_iff, !forallb_forall. split.
  - intros [H1 H2] x. split; intros H.
    + apply mem_true_iff, H1, H.
    + apply mem_true_iff, H2, H.
  - intros H. split; intros x Hx; apply mem_true_iff, H, Hx.
Qed.

(** ** The coexpression merger on the scenario *)

(** C1. On the scenario [{(g1,g2,0.9)}], [X = g1], [Y = g2] the merger
    returns the single cluster [X = "g1 g2"] at threshold 0.5; at
    threshold 0.95 the test [if connected:] reads a local that no
    assignment has bound and the call ends in [UnboundLocalError], for any
    number of passes allowed; and at threshold 0.5 a third cluster
    [Z = g3] without any edge is absorbed all the same, because
    [connected] keeps the [True] of the previous candidate. *)
Theorem coex_scenario_outcomes :
  (forall fuel,
      Coex.merge_clusters_coex (S (S fuel)) scenario_clusters scenario_edges
                               25 (1 # 2)
      = Some (Ok [Coex.mkMergedRow "X" "g1 g2"]))
  /\ (forall fuel,
         Coex.merge_clusters_coex (S fuel) scenario_clusters scenario_edges
                                  25 (19 # 20)
         = Some (Raise (UnboundLocalError "connected")))
  /\ (forall fuel,
         Coex.merge_clusters_coex (S (S fuel)) scenario_clusters_Z
                                  scenario_edges 25 (1 # 2)
         = Some (Ok [Coex.mkMergedRow "X" "g1 g2 g3"])).
Proof.
  repeat split; intros fuel; reflexivity.
Qed.

(** C3. Members are lost: on the scenario at threshold 0.95 the
    coexpression merger returns no table at all, whatever the fuel, so
    [g1] and [g2] are in no output; and the fingerprint merger, whatever
    the graph libraries compute, never returns a table with a row, because
    [split_and_match] is called without its [column] argument. *)
Theorem mergers_lose_members :
  (forall fuel merged_df,
      Coex.merge_clusters_coex fuel scenario_clusters scenario_edges
                               25 (19 # 20)
      <> Some (Ok merged_df))
  /\ (forall (sparse : Type) to_scipy_sparse_array run_mcl get_clusters
             raw_df corr_df metabolite_df threshold inflation row rows,
         Fingerprint.merge_clusters_fingerprinting
           sparse to_scipy_sparse_array run_mcl get_clusters
           raw_df corr_df metabolite_df threshold inflation
         <> Ok (row :: rows)).
Proof.
  split.
  - intros [|fuel] merged_df; discriminate.
  - intros sparse to_sparse run_mcl get_clusters raw_df corr_df metabolite_df
           threshold inflation row rows.
    unfold Fingerprint.merge_clusters_fingerprinting.
    destruct (to_sparse _) as [a|e]; simpl; [|discriminate].
    destruct (run_mcl a) as [r|e]; simpl; [|discriminate].
    destruct (mapM _ (get_clusters r)) as [[|names cols]|e]; simpl;
      discriminate.
Qed.

(** ** The dispatch of main *)

(** C4. No [Options] value selects the fingerprinting arm, and a run with
    [-mc -mm fingerprinting] ends in the exit of line 591, whatever the
    loaded tables and whatever the fingerprinting arm would compute. *)
Theorem fingerprinting_is_rejected :
  (forall o, Main.dispatch o <> Main.BrFingerprinting)
  /\ (forall frame metabolite_df targeted_metabolites coexpression_df
             fingerprinting_arm fuel,
         Main.main_merge frame metabolite_df targeted_metabolites
                         coexpression_df fingerprinting_arm fuel
                         fingerprinting_options
         = Some (Raise (SystemExit
                          "Not a valid method for merging cluster. Try again!"))).
Proof.
  split.
  - intros o. unfold Main.dispatch.
    destruct (String.eqb (Main.merge_method o) "overlap"); [discriminate|].
    simpl.
    destruct (String.eqb (Main.merge_method o) "coexpression"); discriminate.
  - reflexivity.
Qed.

(** ** The fingerprint merger on an empty association matrix *)

Lemma mapM_Ok_nil {A B : Type} (f : A -> result B) (l : list A) :
  mapM f l = Ok [] -> l = [].
Proof.
  destruct l as [|a l]; [reflexivity|]. simpl.
  destruct (f a) as [b|e]; simpl; [|discriminate].
  destruct (mapM f l); simpl; discriminate.
Qed.

(** C7 (the claim as stated fails). With networkx's conversion, which
    refuses a graph without nodes, the merger fails on the empty matrix
    instead of returning an empty result. *)
Lemma fingerprinting_empty_matrix_fails :
  Fingerprint.merge_clusters_fingerprinting
    Fingerprint.Graph nx_to_scipy_sparse_array (fun a => Ok a)
    singleton_clusters [] [] [] (1 # 2) 2
  = Raise (NetworkXError "Graph has no nodes or edges").
Proof. reflexivity. Qed.

(** C7 (amended). On an empty association matrix nothing is skipped: the
    graph without nodes goes to the sparse conversion and to the
    partitioner. An exception of either call is the merger's outcome, and
    the merger returns the empty table exactly when both calls succeed and
    the partitioner reports no cluster. *)
Theorem fingerprinting_empty_matrix_calls_partitioner :
  forall (sparse : Type) (to_scipy_sparse_array : Fingerprint.Graph -> result sparse)
         (run_mcl : sparse -> result sparse)
         (get_clusters : sparse -> list (list nat))
         raw_df metabolite_df threshold inflation,
    let merged :=
      Fingerprint.merge_clusters_fingerprinting
        sparse to_scipy_sparse_array run_mcl get_clusters
        raw_df [] metabolite_df threshold inflation in
    (forall e, to_scipy_sparse_array Fingerprint.empty_graph = Raise e ->
               merged = Raise e)
    /\ (forall a e, to_scipy_sparse_array Fingerprint.empty_graph = Ok a ->
                    run_mcl a = Raise e -> merged = Raise e)
    /\ (merged = Ok [] <->
        exists a r, to_scipy_sparse_array Fingerprint.empty_graph = Ok a
                    /\ run_mcl a = Ok r /\ get_clusters r = []).
Proof.
  intros sparse to_sparse run_mcl get_clusters raw_df metabolite_df
         threshold inflation merged.
  subst merged. unfold Fingerprint.merge_clusters_fingerprinting.
  change (Fingerprint.build_graph [] threshold) with Fingerprint.empty_graph.
  repeat split.
  - intros e He. now rewrite He.
  - intros a e Ha He. rewrite Ha. simpl. now rewrite He.
  - destruct (to_sparse Fingerprint.empty_graph) as [a|e]; simpl;
      [|discriminate].
    destruct (run_mcl a) as [r|e] eqn:Hr; simpl; [|discriminate].
    intros H. exists a, r. split; [reflexivity|]. split; [assumption|].
    destruct (mapM (Fingerprint.column_names []) (get_clusters r))
      as [cols|e] eqn:Hcols; simpl in H; [|discriminate].
    apply mapM_Ok_nil in H. subst cols. now apply mapM_Ok_nil in Hcols.
  - intros [a [r [Ha [Hr Hc]]]]. rewrite Ha. simpl. rewrite Hr. simpl.
    now rewrite Hc.
Qed.

(** Both outcomes occur: the failure with networkx's conversion, the empty
    table with a conversion that accepts the empty graph. *)
Lemma fingerprinting_empty_matrix_witness :
  Fingerprint.merge_clusters_fingerprinting
    Fingerprint.Graph nx_to_scipy_sparse_array (fun a => Ok a)
    singleton_clusters [] [] [] (1 # 2) 2
  = Raise (NetworkXError "Graph has no nodes or edges")
  /\ Fingerprint.merge_clusters_fingerprinting
       Fingerprint.Graph (fun G => Ok G) (fun a => Ok a)
       singleton_clusters [] [] [] (1 # 2) 2
     = Ok [].
Proof.
  split.
  - apply (proj1 (fingerprinting_empty_matrix_calls_partitioner
                    Fingerprint.Graph nx_to_scipy_sparse_array
                    (fun a => Ok a) singleton_clusters [] [] (1 # 2) 2)).
    reflexivity.
  - apply (proj2 (proj2 (fingerprinting_empty_matrix_calls_partitioner
                    Fingerprint.Graph (fun G => Ok G)
                    (fun a => Ok a) singleton_clusters [] [] (1 # 2) 2))).
    exists Fingerprint.empty_graph, Fingerprint.empty_graph.
    repeat split; reflexivity.
Defined.

(** ** fill_extracted_rows: the transcript table comes first *)

Lemma extract_loop_spec (elements_list : list string)
    (transcripts_df metabolite_df acc : list FeatureRow) :
  (forall element, In element elements_list ->
     mem element (map feature transcripts_df)
     || mem element (map feature metabolite_df) = true) ->
  extract_loop elements_list transcripts_df metabolite_df acc
  = Ok (acc ++ flat_map
                 (fun element =>
                    if mem element (map feature transcripts_df)
                    then rows_with_feature transcripts_df element
                    else rows_with_feature metabolite_df element)
                 elements_list).
Proof.
  revert acc. induction elements_list as [|element rest IH]; intros acc Hall.
  - simpl. now rewrite app_nil_r.
  - simpl. assert (Hrest : forall e, In e rest ->
                     mem e (map feature transcripts_df)
                     || mem e (map feature metabolite_df) = true)
      by (intros e He; apply Hall; now right).
    specialize (Hall element (or_introl eq_refl)).
    destruct (mem element (map feature transcripts_df)).
    + rewrite IH by assumption. now rewrite <- app_assoc.
    + simpl in Hall. rewrite Hall. rewrite IH by assumption.
      now rewrite <- app_assoc.
Qed.

(** [str.split()] also splits at the whitespace characters beyond ASCII,
    and a row whose members are separated by them is read like any
    other. *)
Lemma split_ws_unicode_spaces :
  split_ws ("g1" ++ no_break_space ++ "m1" ++ em_space ++ " g2")
  = ["g1"; "m1"; "g2"]
  /\ fill_extracted_rows
       ("cluster001", ("g1" ++ no_break_space ++ "m1")%string)
       [mkFeatureRow "g1" [1 # 1]] [mkFeatureRow "m1" [3 # 1]]
     = Ok ("cluster001",
           [mkFeatureRow "g1" [1 # 1]; mkFeatureRow "m1" [3 # 1]]).
Proof. split; reflexivity. Qed.

(** C10. When every member of the row is known to one of the two tables,
    the rows returned are, member by member, the transcript-table rows of
    the member if the transcript table has it (also when the metabolite
    table has it too), and its metabolite-table rows only otherwise. *)
Theorem fill_extracted_rows_transcript_first :
  forall cluster_id elements_str transcripts_df metabolite_df,
    (forall element, In element (split_ws elements_str) ->
       mem element (map feature transcripts_df)
       || mem element (map feature metabolite_df) = true) ->
    fill_extracted_rows (cluster_id, elements_str) transcripts_df metabolite_df
    = Ok (cluster_id,
          flat_map
            (fun element =>
               if mem element (map feature transcripts_df)
               then rows_with_feature transcripts_df element
               else rows_with_feature metabolite_df element)
            (split_ws elements_str)).
Proof.
  intros cluster_id elements_str transcripts_df metabolite_df Hall.
  unfold fill_extracted_rows. cbn [fst snd].
  rewrite (extract_loop_spec _ _ _ [] Hall). reflexivity.
Qed.

(** A cluster ["g1 m1 x"] where [x] is a feature of both tables: its row
    comes from the transcript table. *)
Lemma fill_extracted_rows_transcript_first_witness :
  fill_extracted_rows
    ("cluster001", "g1 m1 x")
    [mkFeatureRow "g1" [1 # 1]; mkFeatureRow "x" [2 # 1]]
    [mkFeatureRow "m1" [3 # 1]; mkFeatureRow "x" [4 # 1]]
  = Ok ("cluster001",
        [mkFeatureRow "g1" [1 # 1]; mkFeatureRow "m1" [3 # 1];
         mkFeatureRow "x" [2 # 1]]).
Proof.
  apply (fill_extracted_rows_transcript_first
           "cluster001" "g1 m1 x"
           [mkFeatureRow "g1" [1 # 1]; mkFeatureRow "x" [2 # 1]]
           [mkFeatureRow "m1" [3 # 1]; mkFeatureRow "x" [4 # 1]]).
  intros element Hin. simpl in Hin.
  destruct Hin as [<-|[<-|[<-|[]]]]; reflexivity.
Defined.

(** ** Termination of the expansion loop of the coexpression merger *)

Lemma filter_length_lt {A : Type} (f g : A -> bool) (l : list A) :
  (forall x, f x = true -> g x = true) ->
  (exists x, In x l /\ g x = true /\ f x = false) ->
  List.length (filter f l) < List.length (filter g l).
Proof.
  intros Himp [x [Hin [Hg Hf]]].
  assert (Hle : forall l', List.length (filter f l')
                           <= List.length (filter g l')).
  { induction l' as [|y l' IH]; simpl; [lia|].
    destruct (f y) eqn:Ef.
    - rewrite (Himp y Ef). simpl. lia.
    - destruct (g y); simpl; lia. }
  induction l as [|y l IH]; [destruct Hin|].
  simpl. destruct Hin as [->|Hin].
  - rewrite Hf, Hg. simpl. specialize (Hle l). lia.
  - specialize (IH Hin). destruct (f y) eqn:Ef.
    + rewrite (Himp y Ef). simpl. lia.
    + destruct (g y); simpl; lia.
Qed.

Lemma gene_loop_cases coexpression_df threshold genes other_cluster c :
  Coex.gene_loop coexpression_df threshold genes other_cluster c = Some true
  \/ Coex.gene_loop coexpression_df threshold genes other_cluster c = c.
Proof.
  induction genes as [|gene rest IH]; simpl; [now right|].
  destruct (intersects _ _); [now left | exact IH].
Qed.

Lemma pass_Raise coexpression_df threshold visited cluster_key items st e :
  Coex.pass coexpression_df threshold visited cluster_key items st = Raise e ->
  e = UnboundLocalError "connected".
Proof.
  revert st. induction items as [|[other_key other_cluster] rest IH];
    intros st; simpl; [discriminate|].
  destruct (mem other_key visited || String.eqb other_key cluster_key);
    [apply IH|].
  destruct (Coex.gene_loop _ _ _ _ _) as [[|]|]; try apply IH.
  intros H. now inversion H.
Qed.

(** One pass: what it appends to [clusters_to_merge] are keys it did not
    skip, [merge_occurred] tells whether it appended any, and a pass that
    appends nothing changes nothing. *)
Lemma pass_Ok coexpression_df threshold visited cluster_key items st p :
  Coex.pass coexpression_df threshold visited cluster_key items st = Ok p ->
  exists added,
    Coex.clusters_to_merge p = Coex.clusters_to_merge st ++ added
    /\ (forall k, In k added ->
          In k (keys items) /\ mem k visited = false /\ k <> cluster_key)
    /\ Coex.merge_occurred p
       = Coex.merge_occurred st
         || negb (match added with [] => true | _ :: _ => false end)
    /\ (added = [] ->
        Coex.current_cluster p = Coex.current_cluster st
        /\ Coex.connected p = Coex.connected st).
Proof.
  revert st. induction items as [|[other_key other_cluster] rest IH];
    intros st; simpl.
  - intros H. inversion H; subst. exists []. rewrite app_nil_r, orb_false_r.
    split; [reflexivity|]. split; [intros k []|]. split; auto.
  - destruct (mem other_key visited || String.eqb other_key cluster_key)
      eqn:Hskip.
    + intros H. destruct (IH _ H) as [added [H1 [H2 [H3 H4]]]].
      exists added. split; [assumption|]. split; [|split; assumption].
      intros k Hin. destruct (H2 k Hin) as [Ha [Hb Hc]].
      split; [now right|]. now split.
    + apply orb_false_iff in Hskip. destruct Hskip as [Hv Hk].
      apply String.eqb_neq in Hk.
      assert (Habsorb :
        forall c,
          Coex.pass coexpression_df threshold visited cluster_key rest
            (Coex.mkPassState (update (Coex.current_cluster st) other_cluster)
                              (Coex.clusters_to_merge st ++ [other_key])
                              true c) = Ok p ->
          exists added,
            Coex.clusters_to_merge p = Coex.clusters_to_merge st ++ added
            /\ (forall k, In k added ->
                  (other_key = k \/ In k (keys rest))
                  /\ mem k visited = false /\ k <> cluster_key)
            /\ Coex.merge_occurred p
               = Coex.merge_occurred st
                 || negb (match added with [] => true | _ :: _ => false end)
            /\ (added = [] ->
                Coex.current_cluster p = Coex.current_cluster st
                /\ Coex.connected p = Coex.connected st)).
      { intros c H. destruct (IH _ H) as [added [H1 [H2 [H3 H4]]]].
        simpl in H1, H3.
        exists (other_key :: added). rewrite H1, <- app_assoc. simpl.
        split; [reflexivity|]. split; [|split].
        - intros k [<-|Hin].
          + split; [now left|]. now split.
          + destruct (H2 k Hin) as [Ha [Hb Hc]].
            split; [now right|]. now split.
        - rewrite H3. now rewrite orb_true_r.
        - discriminate. }
      destruct (gene_loop_cases coexpression_df threshold
                  (Coex.current_cluster st) other_cluster (Coex.connected st))
        as [Hg|Hg]; rewrite Hg.
      * apply Habsorb.
      * destruct (Coex.connected st) as [[|]|] eqn:Hc.
        -- apply Habsorb.
        -- intros H. destruct (IH _ H) as [added [H1 [H2 [H3 H4]]]].
           simpl in H1, H3, H4.
           exists added. split; [assumption|]. split; [|split].
           ++ intros k Hin. destruct (H2 k Hin) as [Ha [Hb Hd]].
              split; [now right|]. now split.
           ++ assumption.
           ++ intros Hnil. now apply H4.
        -- discriminate.
Qed.

Lemma update_nil (s : list string) : update s [] = s.
Proof. unfold update. simpl. apply app_nil_r. Qed.

Lemma pending_shrinks visited cluster_key cluster_dict added k :
  In k added -> In k (keys cluster_dict) -> mem k visited = false ->
  k <> cluster_key ->
  List.length (pending (update visited added) cluster_key cluster_dict)
  < List.length (pending visited cluster_key cluster_dict).
Proof.
  intros Hadd Hkey Hv Hk. unfold pending. apply filter_length_lt.
  - intros [k' c]. simpl. rewrite !negb_true_iff, !orb_false_iff.
    intros [H1 H2]. split; [|assumption].
    apply mem_false_iff. apply mem_false_iff in H1.
    intros Hin. apply H1, update_In. now left.
  - unfold keys in Hkey. apply in_map_iff in Hkey.
    destruct Hkey as [[k' c] [Hfst Hin]]. simpl in Hfst. subst k'.
    exists (k, c). simpl. split; [assumption|]. split.
    + rewrite Hv. simpl. apply negb_true_iff. now apply String.eqb_neq.
    + apply negb_false_iff, orb_true_iff. left.
      apply mem_true_iff, update_In. now right.
Qed.

Lemma while_loop_ends coexpression_df threshold cluster_dict cluster_key :
  forall fuel st,
    List.length (pending (Coex.l_visited st) cluster_key cluster_dict) < fuel ->
    fixed_point_or_unbound coexpression_df threshold cluster_dict cluster_key
      (Coex.while_loop fuel coexpression_df threshold cluster_dict
                       cluster_key st).
Proof.
  induction fuel as [|fuel IH]; intros st Hlt; [lia|].
  simpl.
  destruct (Coex.pass _ _ _ _ _ _) as [p|e] eqn:Hp.
  - destruct (pass_Ok _ _ _ _ _ _ _ Hp) as [added [H1 [H2 [H3 H4]]]].
    simpl in H1, H3. destruct (Coex.merge_occurred p) eqn:Hm.
    + destruct added as [|k added]; [discriminate|].
      apply IH. simpl.
      destruct (H2 k (or_introl eq_refl)) as [Hk1 [Hk2 Hk3]].
      rewrite H1.
      pose proof (pending_shrinks (Coex.l_visited st) cluster_key
                    cluster_dict (k :: added) k (or_introl eq_refl)
                    Hk1 Hk2 Hk3).
      lia.
    + destruct added as [|k added]; [|discriminate].
      destruct (H4 eq_refl) as [Hcur Hconn]. simpl in Hcur, Hconn.
      unfold fixed_point_or_unbound, pass_fixed_point. simpl.
      rewrite H1, update_nil, Hcur, Hconn, Hp.
      destruct p as [pc pm po pn]. simpl in *. now subst.
  - simpl. now apply pass_Raise in Hp.
Qed.

Lemma pending_length_le visited cluster_key cluster_dict :
  List.length (pending visited cluster_key cluster_dict)
  <= List.length cluster_dict.
Proof. unfold pending. apply filter_length_le. Qed.

Lemma dict_set_length {V : Type} (d : list (string * V)) k v :
  List.length (dict_set d k v) <= S (List.length d).
Proof.
  induction d as [|[k' v'] d IH]; simpl; [lia|].
  destruct (String.eqb k' k); simpl; lia.
Qed.

Lemma build_cluster_dict_length (rows : list ClusterRow) :
  List.length (build_cluster_dict rows) <= List.length rows.
Proof.
  unfold build_cluster_dict.
  assert (H : forall d,
             List.length
               (fold_left
                  (fun cluster_dict row =>
                     dict_set cluster_dict (ID row)
                              (split_on " " (Members row)))
                  rows d)
             <= List.length d + List.length rows).
  { induction rows as [|row rows IH]; intros d; simpl; [lia|].
    specialize (IH (dict_set d (ID row) (split_on " " (Members row)))).
    pose proof (dict_set_length d (ID row) (split_on " " (Members row))).
    lia. }
  apply (H []).
Qed.

Lemma seed_loop_ends coexpression_df threshold cluster_dict fuel :
  List.length cluster_dict < fuel ->
  forall seeds st,
  exists r, Coex.seed_loop fuel coexpression_df threshold cluster_dict
                           seeds st = Some r.
Proof.
  intros Hfuel. induction seeds as [|[cluster_key cluster] rest IH];
    intros st; simpl.
  - eauto.
  - destruct (mem cluster_key (Coex.visited_clusters st)); [apply IH|].
    pose proof (while_loop_ends coexpression_df threshold cluster_dict
                  cluster_key fuel
                  (Coex.mkLoopState (set_ cluster) (Coex.visited_clusters st)
                                    (Coex.o_connected st))) as Hw.
    destruct (Coex.while_loop _ _ _ _ _ _) as [[l|e]|].
    + apply IH.
    + eauto.
    + exfalso. apply Hw. simpl.
      pose proof (pending_length_le (Coex.visited_clusters st) cluster_key
                    cluster_dict). lia.
Qed.

(** X22. The [while] loop of a seed never runs for ever: after at most one
    pass more than there are clusters the seed has not skipped it has
    either returned, at a state that a further pass leaves unchanged with
    nothing absorbed, or it has been left by the [UnboundLocalError] of the
    unbound [connected]. Hence the call of the merger ends, with a table or
    with that exception, for every cluster table and every edge table once
    the fuel exceeds the number of rows. *)
Theorem coex_expansion_terminates :
  (forall coexpression_df threshold cluster_dict cluster_key st extra,
      fixed_point_or_unbound coexpression_df threshold cluster_dict cluster_key
        (Coex.while_loop
           (S (List.length (pending (Coex.l_visited st) cluster_key
                                    cluster_dict)) + extra)
           coexpression_df threshold cluster_dict cluster_key st))
  /\ (forall df coexpression_df dr threshold extra,
         exists r,
           Coex.merge_clusters_coex (S (List.length df) + extra)
                                    df coexpression_df dr threshold
           = Some r).
Proof.
  split.
  - intros. apply while_loop_ends. lia.
  - intros. unfold Coex.merge_clusters_coex. apply seed_loop_ends.
    pose proof (build_cluster_dict_length (select_rows df dr)).
    assert (List.length (select_rows df dr) <= List.length df)
      by (unfold select_rows; apply filter_length_le).
    lia.
Qed.

(** C9. The fixed point is not reached on the scenario [{(g1,g2,0.9)}],
    [X = g1], [Y = g2] at threshold 0.95: the first pass of seed [X] meets
    the candidate [Y], finds no edge, reads the unbound [connected] and
    leaves the loop with [UnboundLocalError]. However many passes are
    allowed, the loop returns no state and the merger no table. *)
Theorem coex_fixed_point_not_reached :
  let cluster_dict := build_cluster_dict (select_rows scenario_clusters 25) in
  let seed := Coex.mkLoopState (set_ ["g1"]) [] None in
  cluster_dict = [("X", ["g1"]); ("Y", ["g2"])]
  /\ Coex.pass scenario_edges (19 # 20) [] "X" cluster_dict
               (Coex.mkPassState (set_ ["g1"]) [] false None)
     = Raise (UnboundLocalError "connected")
  /\ (forall fuel,
         Coex.while_loop (S fuel) scenario_edges (19 # 20) cluster_dict
                         "X" seed
         = Some (Raise (UnboundLocalError "connected")))
  /\ (forall fuel st',
         Coex.while_loop fuel scenario_edges (19 # 20) cluster_dict "X" seed
         <> Some (Ok st'))
  /\ (forall fuel,
         Coex.merge_clusters_coex (S fuel) scenario_clusters scenario_edges
                                  25 (19 # 20)
         = Some (Raise (UnboundLocalError "connected"))).
Proof.
  cbv zeta. split; [reflexivity|]. split; [reflexivity|].
  split; [intros fuel; reflexivity|].
  split; [intros [|fuel] st'; discriminate | intros fuel; reflexivity].
Qed.

(** ** The overlap merger: a merged set that meets existing sets *)

Lemma intersects_sym (s t : list string) : intersects s t = intersects t s.
Proof.
  destruct (intersects s t) eqn:E1, (intersects t s) eqn:E2; try reflexivity.
  - apply intersects_true_iff in E1. destruct E1 as [x [H1 H2]].
    rewrite intersects_false_iff in E2. destruct (E2 x H2 H1).
  - apply intersects_true_iff in E2. destruct E2 as [x [H1 H2]].
    rewrite intersects_false_iff in E1. destruct (E1 x H2 H1).
Qed.

Lemma intersects_update_false (e new t : list string) :
  intersects e t = false -> intersects new t = false ->
  intersects (update e new) t = false.
Proof.
  rewrite !intersects_false_iff. intros He Hn x Hx Ht.
  apply update_In in Hx. destruct Hx as [Hx|Hx]; eauto.
Qed.

Lemma pairwise_disjointb_cons (s : list string) (rest : list (list string)) :
  pairwise_disjointb (s :: rest) = true <->
  (forall t, In t rest -> intersects s t = false)
  /\ pairwise_disjointb rest = true.
Proof.
  simpl. rewrite andb_true_iff, forallb_forall. split; intros [H1 H2];
    (split; [|assumption]); intros t Ht; specialize (H1 t Ht).
  - now apply negb_true_iff in H1.
  - now apply negb_true_iff.
Qed.


Lemma filter_nil_false {A : Type} (f : A -> bool) (l : list A) :
  List.length (filter f l) <= 0 -> forall x, In x l -> f x = false.
Proof.
  induction l as [|y l IH]; intros Hlen x Hin; [destruct Hin|].
  simpl in Hlen. destruct (f y) eqn:Ef; simpl in Hlen; [lia|].
  destruct Hin as [->|Hin]; auto.
Qed.


Lemma update_first_Some (merged : list (list string)) (new : list string) :
  forall merged',
    Overlap.update_first merged new = Some merged' ->
    (forall t, In t merged' ->
       In t merged \/ exists e, In e merged /\ t = update e new)
    /\ (exists s, In s merged' /\ forall x, In x new -> In x s)
    /\ (pairwise_disjointb merged = true ->
        List.length (filter (fun e => intersects e new) merged) <= 1 ->
        pairwise_disjointb merged' = true).
Proof.
  induction merged as [|s merged IH]; simpl; intros merged' H;
    [discriminate|].
  destruct (intersects s new) eqn:Es.
  - inversion H; subst merged'; clear H. split; [|split].
    + intros t [<-|Ht]; [right; exists s; split; [now left|reflexivity]|].
      left. now right.
    + exists (update s new). split; [now left|].
      intros x Hx. apply update_In. now right.
    + intros Hpd Hlen. simpl in Hlen.
      apply (proj1 (pairwise_disjointb_cons s merged)) in Hpd.
      destruct Hpd as [Hs Hm]. apply pairwise_disjointb_cons.
      split; [|assumption]. intros t Ht.
      apply intersects_update_false; [now apply Hs|].
      rewrite intersects_sym.
      apply (filter_nil_false (fun e => intersects e new) merged);
        [lia | assumption].
  - destruct (Overlap.update_first merged new) as [m''|] eqn:Hu;
      [|discriminate].
    inversion H; subst merged'; clear H.
    destruct (IH m'' eq_refl) as [Hin [[u [Hu1 Hu2]] Hpd']].
    split; [|split].
    + intros t [<-|Ht]; [left; now left|].
      destruct (Hin t Ht) as [Ht'|[e [He1 He2]]].
      * left. now right.
      * right. exists e. split; [now right | assumption].
    + exists u. split; [now right | assumption].
    + intros Hpd Hlen.
      apply (proj1 (pairwise_disjointb_cons s merged)) in Hpd.
      destruct Hpd as [Hs Hm]. apply pairwise_disjointb_cons. split.
      * intros t Ht. destruct (Hin t Ht) as [Ht'|[e [He1 He2]]].
        -- now apply Hs.
        -- subst t. rewrite intersects_sym.
           apply intersects_update_false; rewrite intersects_sym;
             [now apply Hs | assumption].
      * now apply Hpd'.
Qed.

Lemma absorb_covers_new (merged : list (list string)) (new : list string) :
  exists s, In s (Overlap.absorb merged new) /\ forall x, In x new -> In x s.
Proof.
  unfold Overlap.absorb.
  destruct (Overlap.update_first merged new) as [merged'|] eqn:Hu.
  - now destruct (update_first_Some merged new merged' Hu) as [_ [Hcov _]].
  - destruct (set_in new merged) eqn:Hin.
    + unfold set_in in Hin. apply existsb_exists in Hin.
      destruct Hin as [e [He Heq]]. exists e. split; [assumption|].
      intros x Hx. now apply (proj1 (set_eqb_true_iff new e) Heq).
    + exists new. split; [|auto]. apply in_app_iff. right. now left.
Qed.


(** A merged set that meets two existing sets: the set built for [m3]
    meets the sets of [m1] and of [m2]; the search of lines 185-189 ends
    at the first of them ([break]), and the two stay apart with [c] in
    both. *)
Lemma overlap_bridge_stays_apart :
  Overlap.merged_sets bridge_clusters ["m1"; "m2"; "m3"] 25
  = [["m1"; "a"; "b"; "m3"; "c"; "e"]; ["m2"; "c"; "d"]].
Proof. reflexivity. Qed.


(** With an earlier group next to the chain the set built for [m2] meets
    two merged sets: the run is not free of bridges, and the members of
    [A], [B] and [C] are spread over two merged sets. *)
Lemma overlap_chain_with_bridge :
  let clusters :=
    Overlap.clusters_of
      (build_cluster_dict (select_rows bridged_chain_clusters 25)) in
  no_bridgeb clusters (anchor_groups ["m0"; "m1"; "m2"] clusters)
             (Overlap.mkMergeState [] []) = false
  /\ Overlap.merged_sets bridged_chain_clusters ["m0"; "m1"; "m2"] 25
     = [["m0"; "a"; "b"; "m1"; "m2"]; ["m1"; "x"; "m2"]].
Proof. split; reflexivity. Qed.

(** ** The association matrix *)







(** ** The similarity graph of the fingerprint merger *)

Lemma has_edge_add_node (G : Fingerprint.Graph) (i a b : string) :
  Fingerprint.has_edge (Fingerprint.add_node G i) a b
  = Fingerprint.has_edge G a b.
Proof.
  unfold Fingerprint.add_node. now destruct (mem i (Fingerprint.nodes G)).
Qed.

Lemma same_edge_spec (a b u w : string) (x : Q) :
  Fingerprint.same_edge a b (u, w, x) = true <->
  (u = a /\ w = b) \/ (u = b /\ w = a).
Proof.
  unfold Fingerprint.same_edge.
  rewrite orb_true_iff, !andb_true_iff, !String.eqb_eq. tauto.
Qed.

Lemma has_edge_add_edge (G : Fingerprint.Graph) (i j a b : string) (v : Q) :
  Fingerprint.has_edge (Fingerprint.add_edge G i j v) a b = true <->
  Fingerprint.has_edge G a b = true
  \/ Fingerprint.same_edge a b (i, j, v) = true.
Proof.
  unfold Fingerprint.add_edge.
  set (G' := Fingerprint.add_node (Fingerprint.add_node G i) j).
  assert (HG' : Fingerprint.edges G' = Fingerprint.edges G).
  { unfold G', Fingerprint.add_node.
    destruct (mem i (Fingerprint.nodes G)); simpl;
      match goal with |- context [mem j ?l] => destruct (mem j l) end;
      reflexivity. }
  unfold Fingerprint.has_edge. rewrite HG'.
  destruct (existsb (Fingerprint.same_edge i j) (Fingerprint.edges G))
    eqn:Hex; cbv iota; cbn [Fingerprint.edges].
  - rewrite !existsb_exists. split.
    + intros [e [He Hs]]. apply in_map_iff in He.
      destruct He as [[[u w] x] [Heq Hin]]. left. exists (u, w, x).
      split; [assumption|].
      destruct (Fingerprint.same_edge i j (u, w, x)); subst e; exact Hs.
    + intros [[[[u w] x] [Hin Hs]]|Hs].
      * exists (if Fingerprint.same_edge i j (u, w, x) then (u, w, v)
                else (u, w, x)).
        split.
        -- apply in_map_iff. exists (u, w, x). split; [reflexivity|assumption].
        -- destruct (Fingerprint.same_edge i j (u, w, x)); exact Hs.
      * apply existsb_exists in Hex. destruct Hex as [[[u w] x] [Hin Hij]].
        exists (if Fingerprint.same_edge i j (u, w, x) then (u, w, v)
                else (u, w, x)).
        split.
        -- apply in_map_iff. exists (u, w, x). split; [reflexivity|assumption].
        -- rewrite Hij. apply same_edge_spec in Hij, Hs.
           apply same_edge_spec. intuition congruence.
  - rewrite existsb_app, orb_true_iff. cbn [existsb].
    rewrite orb_false_r. tauto.
Qed.

Lemma has_edge_add_row_edges (threshold : Q) (i : string)
    (row : list (string * Q)) :
  forall G a b,
    Fingerprint.has_edge (Fingerprint.add_row_edges threshold i row G) a b
    = true <->
    Fingerprint.has_edge G a b = true
    \/ exists j v, In (j, v) row /\ i <> j /\ Qle_bool threshold v = true
                   /\ Fingerprint.same_edge a b (i, j, v) = true.
Proof.
  unfold Fingerprint.add_row_edges.
  induction row as [|[j v] row IH]; intros G a b; simpl.
  - split; [now left|]. intros [H|[j [v [[] _]]]]. exact H.
  - rewrite IH. clear IH.
    destruct (negb (String.eqb i j) && Qle_bool threshold v) eqn:Hc.
    + apply andb_true_iff in Hc. destruct Hc as [Hne Hle].
      apply negb_true_iff, String.eqb_neq in Hne.
      rewrite has_edge_add_edge. split.
      * intros [[H|H]|[j' [v' [H1 H2]]]].
        -- now left.
        -- right. exists j, v. split; [now left|]. now repeat split.
        -- right. exists j', v'. split; [now right | assumption].
      * intros [H|[j' [v' [[Heq|H1] [H2 [H3 H4]]]]]].
        -- left. now left.
        -- inversion Heq; subst j' v'. left. now right.
        -- right. exists j', v'. now repeat split.
    + split.
      * intros [H|[j' [v' [H1 H2]]]]; [now left|].
        right. exists j', v'. split; [now right | assumption].
      * intros [H|[j' [v' [[Heq|H1] [H2 [H3 H4]]]]]].
        -- now left.
        -- inversion Heq; subst j' v'. apply String.eqb_neq in H2.
           rewrite H2, H3 in Hc. discriminate.
        -- right. exists j', v'. now repeat split.
Qed.

Lemma has_edge_build_graph (corr_df : Fingerprint.CorrFrame) (threshold : Q)
    (a b : string) :
  Fingerprint.has_edge (Fingerprint.build_graph corr_df threshold) a b = true
  <-> exists i j v, entry corr_df i j v /\ i <> j
                    /\ Qle_bool threshold v = true
                    /\ Fingerprint.same_edge a b (i, j, v) = true.
Proof.
  unfold Fingerprint.build_graph.
  assert (H : forall G,
    Fingerprint.has_edge
      (fold_left
         (fun G irow =>
            let '(i, row) := irow in
            Fingerprint.add_row_edges threshold i row
                                      (Fingerprint.add_node G i))
         corr_df G) a b = true
    <-> Fingerprint.has_edge G a b = true
        \/ exists i j v, entry corr_df i j v /\ i <> j
                         /\ Qle_bool threshold v = true
                         /\ Fingerprint.same_edge a b (i, j, v) = true).
  { induction corr_df as [|[i row] corr_df IH]; intros G; simpl.
    - split; [now left|].
      intros [H|[i [j [v [[row [[] _]] _]]]]]. exact H.
    - rewrite IH, has_edge_add_row_edges, has_edge_add_node. clear IH.
      split.
      + intros [[H|[j [v [H1 H2]]]]|[i' [j [v [[row' [H1 H1']] H2]]]]].
        * now left.
        * right. exists i, j, v. split; [|assumption].
          exists row. split; [now left | assumption].
        * right. exists i', j, v. split; [|assumption].
          exists row'. split; [now right | assumption].
      + intros [H|[i' [j [v [[row' [[Heq|H1] H1']] H2]]]]].
        * left. now left.
        * inversion Heq; subst i' row'. left. right. exists j, v.
          split; assumption.
        * right. exists i', j, v. split; [|assumption].
          exists row'. split; assumption. }
  rewrite H. split; [|now right]. intros [Hf|Hr]; [discriminate|exact Hr].
Qed.

(** C6 (the claim as stated fails). With every entry of the matrix in
    [0,1], two clusters whose association strength is 1.0 get an edge at
    threshold 1.0. *)
Lemma threshold_one_keeps_perfect_edge :
  (forall i j v, entry perfect_pair i j v -> (0 <= v)%Q /\ (v <= 1)%Q)
  /\ Fingerprint.edges (Fingerprint.build_graph perfect_pair 1)
     = [("A", "B", 1%Q)].
Proof.
  split; [|reflexivity].
  intros i j v [row [Hrow Hv]]. simpl in Hrow.
  destruct Hrow as [Heq|[Heq|[]]]; inversion Heq; subst; simpl in Hv;
    destruct Hv as [Hv|[Hv|[]]]; inversion Hv; subst;
    split; discriminate.
Qed.

(** C6 (amended). With threshold 1.0 and every entry at most 1.0, the
    graph has an edge between [a] and [b] exactly when [a] and [b] differ
    and the matrix has the value 1.0 for the pair in one of the two
    orders; the graph has no self-loop; and when every off-diagonal entry
    is below 1.0 it has no edge at all. *)
Theorem threshold_one_edges :
  forall corr_df,
    (forall i j v, entry corr_df i j v -> (v <= 1)%Q) ->
    (forall a b,
        Fingerprint.has_edge (Fingerprint.build_graph corr_df 1) a b = true
        <-> a <> b /\ exists v, (v == 1)%Q
                                /\ (entry corr_df a b v \/ entry corr_df b a v))
    /\ (forall a,
           Fingerprint.has_edge (Fingerprint.build_graph corr_df 1) a a
           = false)
    /\ ((forall i j v, entry corr_df i j v -> i <> j -> (v < 1)%Q) ->
        Fingerprint.edges (Fingerprint.build_graph corr_df 1) = []).
Proof.
  intros corr_df Hbound.
  assert (Hiff : forall a b,
    Fingerprint.has_edge (Fingerprint.build_graph corr_df 1) a b = true
    <-> a <> b /\ exists v, (v == 1)%Q
                            /\ (entry corr_df a b v \/ entry corr_df b a v)).
  { intros a b. rewrite has_edge_build_graph. split.
    - intros [i [j [v [He [Hne [Hle Hs]]]]]].
      apply Qle_bool_iff in Hle. apply same_edge_spec in Hs.
      assert (Hv : (v == 1)%Q)
        by (apply Qle_antisym; [now apply (Hbound i j) | assumption]).
      destruct Hs as [[-> ->]|[-> ->]].
      + split; [assumption|]. exists v. split; [assumption | now left].
      + split; [congruence|]. exists v. split; [assumption | now right].
    - intros [Hne [v [Hv [He|He]]]].
      + exists a, b, v. split; [assumption|]. split; [assumption|]. split.
        * apply Qle_bool_iff. rewrite Hv. apply Qle_refl.
        * apply same_edge_spec. now left.
      + exists b, a, v. split; [assumption|]. split; [congruence|]. split.
        * apply Qle_bool_iff. rewrite Hv. apply Qle_refl.
        * apply same_edge_spec. now right. }
  split; [exact Hiff|]. split.
  - intros a.
    destruct (Fingerprint.has_edge (Fingerprint.build_graph corr_df 1) a a)
      eqn:E; [|reflexivity].
    apply Hiff in E. destruct E as [Hne _]. now destruct Hne.
  - intros Hlt.
    destruct (Fingerprint.edges (Fingerprint.build_graph corr_df 1))
      as [|[[u w] x] rest] eqn:E; [reflexivity|].
    assert (Hedge : Fingerprint.has_edge (Fingerprint.build_graph corr_df 1)
                                         u w = true).
    { unfold Fingerprint.has_edge. rewrite E. simpl.
      now rewrite !String.eqb_refl. }
    apply Hiff in Hedge. destruct Hedge as [Hne [v [Hv [He|He]]]].
    + specialize (Hlt u w v He Hne). rewrite Hv in Hlt.
      now apply Qlt_irrefl in Hlt.
    + assert (Hne' : w <> u) by congruence.
      specialize (Hlt w u v He Hne'). rewrite Hv in Hlt.
      now apply Qlt_irrefl in Hlt.
Qed.

Lemma half_pair_entries i j v :
  entry half_pair i j v -> (v == 1)%Q \/ (i <> j /\ (v == 1 # 2)%Q).
Proof.
  intros [row [Hrow Hv]]. simpl in Hrow.
  destruct Hrow as [Heq|[Heq|[]]]; inversion Heq; subst; simpl in Hv;
    destruct Hv as [Hv|[Hv|[]]]; inversion Hv; subst;
    solve [left; reflexivity
          | right; split; [discriminate | reflexivity]].
Qed.

(** Two clusters of association strength 0.5: no edge at threshold 1.0. *)
Lemma threshold_one_edges_witness :
  Fingerprint.edges (Fingerprint.build_graph half_pair 1) = [].
Proof.
  apply (threshold_one_edges half_pair).
  - intros i j v He. destruct (half_pair_entries i j v He) as [Hv|[_ Hv]];
      rewrite Hv; discriminate.
  - intros i j v He Hne.
    destruct (half_pair_entries i j v He) as [Hv|[_ Hv]].
    + exfalso. destruct He as [row [Hrow Hin]]. simpl in Hrow.
      destruct Hrow as [Heq|[Heq|[]]]; inversion Heq; subst; simpl in Hin;
        destruct Hin as [Hin|[Hin|[]]]; inversion Hin; subst;
        solve [now apply Hne | discriminate Hv].
    + rewrite Hv. reflexivity.
Defined.

(** ** The split of a merged cluster into metabolites and genes *)

Lemma merged_set_of_NoDup (clusters : list (list string)) (indices : list nat) :
  NoDup (Overlap.merged_set_of clusters indices).
Proof.
  unfold Overlap.merged_set_of.
  assert (H : forall acc, NoDup acc ->
            NoDup (fold_left
                     (fun merged_set index =>
                        update merged_set (nth index clusters []))
                     indices acc)).
  { induction indices as [|index indices IH]; intros acc Hacc; simpl;
      [assumption|]. apply IH. now apply update_NoDup. }
  apply H. constructor.
Qed.

Lemma absorb_NoDup (merged : list (list string)) (new : list string) :
  Forall (@NoDup string) merged -> NoDup new ->
  Forall (@NoDup string) (Overlap.absorb merged new).
Proof.
  intros Hm Hn. unfold Overlap.absorb.
  destruct (Overlap.update_first merged new) as [merged'|] eqn:Hu.
  - destruct (update_first_Some merged new merged' Hu) as [Hin _].
    rewrite Forall_forall in *. intros t Ht.
    destruct (Hin t Ht) as [Ht'|[e [He ->]]]; [now apply Hm|].
    apply update_NoDup. now apply Hm.
  - destruct (set_in new merged); [assumption|].
    apply Forall_app. split; [assumption|]. now constructor.
Qed.

Lemma remaining_incl (clusters : list (list string)) (visited : list nat) :
  forall i c, In c (Overlap.remaining i clusters visited) -> In c clusters.
Proof.
  induction clusters as [|cluster rest IH]; intros i c; simpl; [tauto|].
  destruct (existsb (Nat.eqb i) visited); simpl.
  - intros H. right. now apply (IH (S i)).
  - intros [H|H]; [now left|]. right. now apply (IH (S i)).
Qed.

Lemma merged_sets_NoDup df metabolite_features dr :
  Forall (@NoDup string) (Overlap.merged_sets df metabolite_features dr).
Proof.
  unfold Overlap.merged_sets.
  set (clusters := Overlap.clusters_of (build_cluster_dict (select_rows df dr))).
  assert (Hc : Forall (@NoDup string) clusters).
  { unfold clusters, Overlap.clusters_of. apply Forall_forall.
    intros c Hc. apply in_map_iff in Hc. destruct Hc as [kv [<- _]].
    apply set_NoDup. }
  assert (Hfold : forall l st,
            Forall (@NoDup string) (Overlap.merged_clusters st) ->
            Forall (@NoDup string)
              (Overlap.merged_clusters
                 (fold_left (Overlap.anchor_step clusters) l st))).
  { induction l as [|indices l IH]; intros st Hst; simpl; [assumption|].
    apply IH. unfold Overlap.anchor_step.
    destruct (1 <? List.length indices); [|assumption]. simpl.
    apply absorb_NoDup; [assumption | apply merged_set_of_NoDup]. }
  apply Forall_app. split.
  - apply Hfold. constructor.
  - rewrite Forall_forall in *. intros c Hin. apply Hc.
    eapply remaining_incl. exact Hin.
Qed.

Lemma count_occ_filter_one (f : string -> bool) (l : list string) (x : string) :
  NoDup l -> In x l -> f x = true ->
  count_occ string_dec (filter f l) x = 1.
Proof.
  intros Hl Hin Hf.
  apply (proj1 (NoDup_count_occ' string_dec (filter f l))).
  - now apply NoDup_filter.
  - apply filter_In. now split.
Qed.

(** C8. With a targeted list that names only [m1], the overlap merger
    splits the merged cluster [m1 m2 g1] by the targeted list: [m2], a
    feature of the metabolite table, is written to the [Genes] column.
    Without a targeted list the same frame and metabolite table give
    [m1 m2] as metabolites and [g1] as the only gene. *)
Theorem targeted_list_decides_the_split :
  mem "m2" (map feature targeted_metabolite_df) = true
  /\ mem "g1" (map feature targeted_metabolite_df) = false
  /\ Main.deduplicated_metabolites_of ["m1"] = ["m1"]
  /\ Overlap.merge_clusters_overlapping targeted_frame ["m1"] 25
     = [Overlap.mkMergedRow "MC_1" "m1" "m2 g1"]
  /\ Main.main_merge targeted_frame targeted_metabolite_df ["m1"] [] (Ok [])
                     1 targeted_options
     = Some (Ok [Main.ExportOverlap
                   "merged_cluster_overlap_metabolites_DR_25"
                   [Overlap.mkMergedRow "MC_1" "m1" "m2 g1"]])
  /\ Main.main_merge targeted_frame targeted_metabolite_df ["m1"] [] (Ok [])
                     1 untargeted_options
     = Some (Ok [Main.ExportOverlap
                   "merged_cluster_overlap_metabolites_DR_25"
                   [Overlap.mkMergedRow "MC_1" "m1 m2" "g1"]]).
Proof. repeat split; reflexivity. Qed.

(** The two sub-lists share no member: in every merged set of the overlap
    merger each member is once in exactly one of them, the metabolites if
    it is in the list [metabolite_features] that the merger was called
    with and the genes if not; and [split_and_match] puts every element of
    the row in exactly one of [matching] and [unmatching], by membership
    in the [feature] column of the table it was given. *)
Lemma split_by_given_feature_list :
  (forall df metabolite_features dr cluster x,
      In cluster (Overlap.merged_sets df metabolite_features dr) ->
      In x cluster ->
      if mem x metabolite_features
      then count_occ string_dec
                     (Overlap.metabolites_of metabolite_features cluster) x = 1
           /\ ~ In x (Overlap.genes_of metabolite_features cluster)
      else count_occ string_dec
                     (Overlap.genes_of metabolite_features cluster) x = 1
           /\ ~ In x (Overlap.metabolites_of metabolite_features cluster))
  /\ (forall row metabolite_df column matching unmatching x,
         split_and_match row metabolite_df column = Ok (matching, unmatching) ->
         In x (matching ++ unmatching) ->
         if mem x (map feature metabolite_df)
         then In x matching /\ ~ In x unmatching
         else In x unmatching /\ ~ In x matching).
Proof.
  split.
  - intros df metabolite_features dr cluster x Hc Hx.
    pose proof (merged_sets_NoDup df metabolite_features dr) as Hnd.
    rewrite Forall_forall in Hnd. specialize (Hnd cluster Hc).
    unfold Overlap.metabolites_of, Overlap.genes_of.
    destruct (mem x metabolite_features) eqn:Hm.
    + split; [now apply count_occ_filter_one|].
      rewrite filter_In, Hm. intros [_ H]. discriminate.
    + split; [apply count_occ_filter_one; auto; now rewrite Hm|].
      rewrite filter_In, Hm. intros [_ H]. discriminate.
  - intros row metabolite_df column matching unmatching x Hsplit Hx.
    unfold split_and_match in Hsplit.
    destruct (row_column_split row column) as [merged_members|e];
      simpl in Hsplit; [|discriminate].
    inversion Hsplit; subst matching unmatching; clear Hsplit.
    unfold matching_of, unmatching_of in *.
    assert (Hmem : In x merged_members).
    { apply in_app_iff in Hx. destruct Hx as [Hx|Hx];
        apply filter_In in Hx; tauto. }
    destruct (mem x (map feature metabolite_df)) eqn:Hm.
    + assert (Hmatch : In x (filter
                               (fun metabolite =>
                                  mem metabolite (map feature metabolite_df))
                               merged_members))
        by (apply filter_In; now split).
      split; [assumption|]. rewrite filter_In.
      intros [_ H]. apply negb_true_iff, mem_false_iff in H. contradiction.
    + assert (Hnot : ~ In x (filter
                               (fun metabolite =>
                                  mem metabolite (map feature metabolite_df))
                               merged_members)).
      { rewrite filter_In, Hm. intros [_ H]. discriminate. }
      split; [|assumption]. apply filter_In. split; [assumption|].
      apply negb_true_iff, mem_false_iff. assumption.
Qed.

(** The spec's overlap scenario, first merged set, member [g3]; and a row
    ["m1,g1"] given to [split_and_match] with the column it needs. *)
Lemma split_by_given_feature_list_witness :
  (count_occ string_dec
             (Overlap.genes_of ["m1"] ["m1"; "g1"; "g2"; "g3"]) "g3" = 1
   /\ ~ In "g3" (Overlap.metabolites_of ["m1"] ["m1"; "g1"; "g2"; "g3"]))
  /\ (In "m1" ["m1"] /\ ~ In "m1" ["g1"]).
Proof.
  split.
  - apply (proj1 split_by_given_feature_list
             [mkClusterRow "A" "m1 g1 g2" "DR_25";
              mkClusterRow "B" "m1 g3" "DR_25";
              mkClusterRow "C" "g4 g5" "DR_25"]
             ["m1"] 25%Z ["m1"; "g1"; "g2"; "g3"] "g3").
    + vm_compute. left. reflexivity.
    + simpl. tauto.
  - apply (proj2 split_by_given_feature_list
             (mkFpRow ["A"] "m1,g1") [mkFeatureRow "m1" []] "Merged Members"
             ["m1"] ["g1"] "m1").
    + reflexivity.
    + simpl. tauto.
Defined.

(** ** The overlap merger keeps every member of its decay-rate slice *)

Lemma overlap_scenario_result :
  Overlap.merge_clusters_overlapping overlap_scenario ["m1"] 25
  = [Overlap.mkMergedRow "MC_1" "m1" "g1 g2 g3";
     Overlap.mkMergedRow "MC_2" "" "g4 g5"].
Proof. reflexivity. Qed.

Lemma update_first_keeps (merged : list (list string)) (new : list string) :
  forall merged',
    Overlap.update_first merged new = Some merged' ->
    forall s, In s merged ->
      exists s', In s' merged' /\ forall x, In x s -> In x s'.
Proof.
  induction merged as [|e merged IH]; simpl; intros merged' H s Hs;
    [destruct Hs|].
  destruct (intersects e new).
  - inversion H; subst merged'; clear H. destruct Hs as [<-|Hs].
    + exists (update e new). split; [now left|].
      intros x Hx. apply update_In. now left.
    + exists s. split; [now right | auto].
  - destruct (Overlap.update_first merged new) as [m''|]; [|discriminate].
    inversion H; subst merged'; clear H. destruct Hs as [<-|Hs].
    + exists e. split; [now left | auto].
    + destruct (IH m'' eq_refl s Hs) as [s' [H1 H2]].
      exists s'. split; [now right | assumption].
Qed.

Lemma absorb_keeps (merged : list (list string)) (new s : list string) :
  In s merged ->
  exists s', In s' (Overlap.absorb merged new) /\ forall x, In x s -> In x s'.
Proof.
  intros Hs. unfold Overlap.absorb.
  destruct (Overlap.update_first merged new) as [merged'|] eqn:Hu.
  - now apply (update_first_keeps merged new merged' Hu).
  - destruct (set_in new merged).
    + exists s. split; [assumption | auto].
    + exists s. split; [apply in_app_iff; now left | auto].
Qed.

Lemma absorb_from (merged : list (list string)) (new t : list string) (x : string) :
  In t (Overlap.absorb merged new) -> In x t ->
  (exists s, In s merged /\ In x s) \/ In x new.
Proof.
  unfold Overlap.absorb.
  destruct (Overlap.update_first merged new) as [merged'|] eqn:Hu.
  - destruct (update_first_Some merged new merged' Hu) as [Hin _].
    intros Ht Hx. destruct (Hin t Ht) as [Ht'|[e [He ->]]].
    + left. now exists t.
    + apply update_In in Hx. destruct Hx as [Hx|Hx]; [|now right].
      left. now exists e.
  - destruct (set_in new merged).
    + intros Ht Hx. left. now exists t.
    + intros Ht Hx. apply in_app_iff in Ht. destruct Ht as [Ht|[<-|[]]].
      * left. now exists t.
      * now right.
Qed.

Lemma merged_set_of_In (clusters : list (list string)) (indices : list nat)
    (x : string) :
  In x (Overlap.merged_set_of clusters indices) <->
  exists index, In index indices /\ In x (nth index clusters []).
Proof.
  unfold Overlap.merged_set_of.
  assert (H : forall acc,
    In x (fold_left
            (fun merged_set index => update merged_set (nth index clusters []))
            indices acc)
    <-> In x acc \/ exists index, In index indices
                                  /\ In x (nth index clusters [])).
  { induction indices as [|i indices IH]; intros acc; simpl.
    - split; [now left|]. intros [H|[i [[] _]]]. exact H.
    - rewrite IH, update_In. split.
      + intros [[H|H]|[i' [H1 H2]]].
        * now left.
        * right. exists i. split; [now left | assumption].
        * right. exists i'. split; [now right | assumption].
      + intros [H|[i' [[<-|H1] H2]]].
        * left. now left.
        * left. now right.
        * right. now exists i'. }
  rewrite H. split; [|now right]. intros [[]|Hr]. exact Hr.
Qed.

Lemma add_index_fold (indices : list nat) (i : nat) :
  forall visited,
    existsb (Nat.eqb i)
            (fold_left (fun v index => Overlap.add_index index v)
                       indices visited) = true
    <-> existsb (Nat.eqb i) visited = true \/ In i indices.
Proof.
  induction indices as [|j indices IH]; intros visited; simpl.
  - tauto.
  - rewrite IH. unfold Overlap.add_index.
    destruct (existsb (Nat.eqb j) visited) eqn:Hj.
    + split; [tauto|]. intros [H|[<-|H]]; auto.
    + rewrite existsb_app. simpl. rewrite orb_false_r, orb_true_iff,
        Nat.eqb_eq. split; intros H; intuition congruence.
Qed.

Lemma nth_cluster_In (clusters : list (list string)) (i : nat) (x : string) :
  In x (nth i clusters []) -> In (nth i clusters []) clusters.
Proof.
  intros Hx. destruct (Nat.lt_ge_cases i (List.length clusters)) as [Hlt|Hge].
  - now apply nth_In.
  - rewrite nth_overflow in Hx by assumption. destruct Hx.
Qed.

Lemma remaining_nth (visited : list nat) :
  forall clusters k i,
    i < List.length clusters ->
    existsb (Nat.eqb (k + i)) visited = false ->
    In (nth i clusters []) (Overlap.remaining k clusters visited).
Proof.
  induction clusters as [|c clusters IH]; intros k i Hlt Hv; simpl in *;
    [lia|].
  destruct i as [|i].
  - rewrite Nat.add_0_r in Hv. rewrite Hv. now left.
  - assert (Hin : In (nth i clusters [])
                     (Overlap.remaining (S k) clusters visited)).
    { apply IH; [lia|]. now replace (S k + i) with (k + S i) by lia. }
    destruct (existsb (Nat.eqb k) visited); [assumption | now right].
Qed.

(** The anchor loop: the members of every visited cluster are in a merged
    set, and a merged set holds members of the clusters only. *)
Lemma anchor_loop_invariant (clusters : list (list string)) :
  forall l st,
    (forall i x, existsb (Nat.eqb i) (Overlap.visited_clusters st) = true ->
                 In x (nth i clusters []) ->
                 exists s, In s (Overlap.merged_clusters st) /\ In x s) ->
    (forall s x, In s (Overlap.merged_clusters st) -> In x s ->
                 exists c, In c clusters /\ In x c) ->
    let st' := fold_left (Overlap.anchor_step clusters) l st in
    (forall i x, existsb (Nat.eqb i) (Overlap.visited_clusters st') = true ->
                 In x (nth i clusters []) ->
                 exists s, In s (Overlap.merged_clusters st') /\ In x s)
    /\ (forall s x, In s (Overlap.merged_clusters st') -> In x s ->
                    exists c, In c clusters /\ In x c).
Proof.
  induction l as [|indices l IH]; intros st H1 H2; simpl; [now split|].
  apply IH; unfold Overlap.anchor_step;
    destruct (1 <? List.length indices); try assumption; simpl.
  - intros i x Hv Hx. apply add_index_fold in Hv. destruct Hv as [Hv|Hv].
    + destruct (H1 i x Hv Hx) as [s [Hs Hxs]].
      destruct (absorb_keeps (Overlap.merged_clusters st)
                  (Overlap.merged_set_of clusters indices) s Hs)
        as [s' [Hs' Hsub]].
      exists s'. split; [assumption | now apply Hsub].
    + destruct (absorb_covers_new (Overlap.merged_clusters st)
                  (Overlap.merged_set_of clusters indices)) as [s [Hs Hsub]].
      exists s. split; [assumption|]. apply Hsub.
      apply merged_set_of_In. now exists i.
  - intros s x Hs Hx.
    destruct (absorb_from _ _ _ _ Hs Hx) as [[s0 [Hs0 Hx0]]|Hnew].
    + now apply (H2 s0).
    + apply merged_set_of_In in Hnew. destruct Hnew as [i [_ Hi]].
      exists (nth i clusters []). split; [|assumption].
      now apply (nth_cluster_In clusters i x).
Qed.

Lemma build_cluster_dict_unique (rows : list ClusterRow) :
  NoDup (map ID rows) ->
  build_cluster_dict rows
  = map (fun row => (ID row, split_on " " (Members row))) rows.
Proof.
  unfold build_cluster_dict.
  assert (Hset : forall (d : list (string * list string)) k v,
            ~ In k (map fst d) -> dict_set d k v = d ++ [(k, v)]).
  { induction d as [|[k' v'] d IHd]; intros k v Hk; simpl; [reflexivity|].
    simpl in Hk. destruct (String.eqb_spec k' k); [tauto|].
    rewrite IHd; tauto. }
  assert (H : forall acc,
            NoDup (map fst acc ++ map ID rows) ->
            fold_left
              (fun cluster_dict row =>
                 dict_set cluster_dict (ID row) (split_on " " (Members row)))
              rows acc
            = acc ++ map (fun row => (ID row, split_on " " (Members row)))
                         rows).
  { induction rows as [|row rows IH]; intros acc Hnd; simpl.
    - now rewrite app_nil_r.
    - simpl in Hnd. rewrite Hset.
      + rewrite IH.
        * now rewrite <- app_assoc.
        * rewrite map_app. simpl. rewrite <- app_assoc. simpl.
          apply NoDup_remove_1 in Hnd as Hnd1.
          apply NoDup_remove_2 in Hnd as Hnd2.
          apply NoDup_app; rewrite in_app_iff in Hnd2.
          -- now apply NoDup_app_remove_r in Hnd1.
          -- constructor; [tauto | now apply NoDup_app_remove_l in Hnd1].
          -- intros a Ha [<-|Hb]; [tauto|].
             revert Ha Hb. clear - Hnd1.
             induction (map fst acc) as [|y ys IHy]; simpl; [tauto|].
             inversion Hnd1; subst. intros [<-|Ha] Hb.
             ++ apply H1. apply in_app_iff. now right.
             ++ now apply IHy.
      + apply NoDup_remove_2 in Hnd. rewrite in_app_iff in Hnd. tauto. }
  intros Hnd. apply (H [] Hnd).
Qed.

(** X4. With distinct IDs in the slice of the decay rate, the overlap
    merger neither loses nor invents a member: a feature is in some merged
    set exactly when it is a member of some cluster of the slice. *)
Lemma overlap_covers_all_members df metabolite_features dr :
  NoDup (map ID (select_rows df dr)) ->
  forall x,
    (exists s, In s (Overlap.merged_sets df metabolite_features dr) /\ In x s)
    <-> (exists row, In row (select_rows df dr)
                     /\ In x (split_on " " (Members row))).
Proof.
  intros Hnd x. unfold Overlap.merged_sets.
  rewrite (build_cluster_dict_unique _ Hnd).
  set (clusters := Overlap.clusters_of _).
  set (m_elements := Overlap.populate metabolite_features 0 clusters []).
  destruct (anchor_loop_invariant clusters (map snd m_elements)
              (Overlap.mkMergeState [] []))
    as [H1 H2]; try (simpl; intros; now exfalso).
  set (st := fold_left (Overlap.anchor_step clusters) (map snd m_elements)
                       (Overlap.mkMergeState [] [])) in *.
  assert (Hclusters : (exists c, In c clusters /\ In x c)
                      <-> exists row, In row (select_rows df dr)
                                      /\ In x (split_on " " (Members row))).
  { unfold clusters, Overlap.clusters_of. rewrite map_map. simpl. split.
    - intros [c [Hc Hx]]. apply in_map_iff in Hc.
      destruct Hc as [row [<- Hrow]]. exists row. split; [assumption|].
      now apply set_In.
    - intros [row [Hrow Hx]]. exists (set_ (split_on " " (Members row))).
      split; [|now apply set_In].
      apply in_map_iff. now exists row. }
  rewrite <- Hclusters. split.
  - intros [s [Hs Hx]]. apply in_app_iff in Hs. destruct Hs as [Hs|Hs].
    + now apply (H2 s).
    + exists s. split; [|assumption]. eapply remaining_incl. exact Hs.
  - intros [c [Hc Hx]].
    destruct (In_nth clusters c [] Hc) as [i [Hi Hnth]]. subst c.
    destruct (existsb (Nat.eqb i) (Overlap.visited_clusters st)) eqn:Hv.
    + destruct (H1 i x Hv Hx) as [s [Hs Hxs]].
      exists s. split; [apply in_app_iff; now left | assumption].
    + exists (nth i clusters []). split; [|assumption].
      apply in_app_iff. right. now apply (remaining_nth _ clusters 0 i).
Qed.

(** ** cluster_dict: one entry per ID, the last row of an ID wins *)

Lemma dict_get_set_same {V : Type} (d : list (string * V)) k v :
  dict_get (dict_set d k v) k = Some v.
Proof.
  induction d as [|[k' v'] d IH]; simpl.
  - now rewrite String.eqb_refl.
  - destruct (String.eqb k' k) eqn:E; simpl; rewrite E; auto.
Qed.

Lemma dict_get_set_other {V : Type} (d : list (string * V)) k k' v :
  k <> k' -> dict_get (dict_set d k v) k' = dict_get d k'.
Proof.
  intros Hne. induction d as [|[k0 v0] d IH]; simpl.
  - destruct (String.eqb_spec k k'); [contradiction | reflexivity].
  - destruct (String.eqb_spec k0 k); simpl.
    + subst k0. destruct (String.eqb_spec k k'); [contradiction|reflexivity].
    + destruct (String.eqb k0 k'); auto.
Qed.

Lemma dict_set_keys {V : Type} (d : list (string * V)) k v x :
  In x (keys (dict_set d k v)) <-> x = k \/ In x (keys d).
Proof.
  unfold keys. induction d as [|[k0 v0] d IH]; simpl.
  - intuition.
  - destruct (String.eqb_spec k0 k); simpl.
    + subst. intuition.
    + rewrite IH. intuition.
Qed.

Lemma dict_set_keys_NoDup {V : Type} (d : list (string * V)) k v :
  NoDup (keys d) -> NoDup (keys (dict_set d k v)).
Proof.
  unfold keys. induction d as [|[k0 v0] d IH]; simpl; intros Hnd.
  - constructor; [intros []|constructor].
  - inversion Hnd; subst. destruct (String.eqb_spec k0 k); simpl.
    + now constructor.
    + constructor; [|now apply IH].
      intros Hin. apply (dict_set_keys d k v k0) in Hin.
      destruct Hin as [->|Hin]; [now apply n | contradiction].
Qed.

Lemma dict_get_In {V : Type} (d : list (string * V)) k v :
  NoDup (keys d) -> (In (k, v) d <-> dict_get d k = Some v).
Proof.
  unfold keys. induction d as [|[k0 v0] d IH]; simpl; intros Hnd.
  - split; [intros [] | discriminate].
  - inversion Hnd; subst. destruct (String.eqb_spec k0 k).
    + subst k0. split.
      * intros [Heq|Hin]; [now inversion Heq|].
        exfalso. apply H1. apply in_map_iff. now exists (k, v).
      * intros Heq. inversion Heq. now left.
    + rewrite <- (IH H2). split; [|now right].
      intros [Heq|Hin]; [inversion Heq; contradiction | assumption].
Qed.

Lemma find_snoc {A : Type} (p : A -> bool) (l : list A) (a : A) :
  find p (l ++ [a])
  = match find p l with
    | Some x => Some x
    | None => if p a then Some a else None
    end.
Proof.
  induction l as [|b l IH]; simpl; [reflexivity|].
  destruct (p b); auto.
Qed.

Lemma build_cluster_dict_fold_keys (rows : list ClusterRow) :
  forall acc,
    NoDup (keys acc) ->
    NoDup (keys (fold_left
                   (fun cluster_dict row =>
                      dict_set cluster_dict (ID row)
                               (split_on " " (Members row)))
                   rows acc)).
Proof.
  induction rows as [|row rows IH]; intros acc Hacc; simpl; [assumption|].
  apply IH. now apply dict_set_keys_NoDup.
Qed.

Lemma build_cluster_dict_keys_NoDup (rows : list ClusterRow) :
  NoDup (keys (build_cluster_dict rows)).
Proof. apply build_cluster_dict_fold_keys. constructor. Qed.

(** X1. [cluster_dict] has one entry per ID, and the entry of an ID holds
    the members of the last row with that ID: earlier rows of the same ID
    do not reach the mergers. An ID without a row has no entry. *)
Theorem cluster_dict_last_row_wins :
  forall rows k,
    NoDup (keys (build_cluster_dict rows))
    /\ dict_get (build_cluster_dict rows) k
       = option_map (fun row => split_on " " (Members row))
                    (find (fun row => String.eqb (ID row) k) (rev rows)).
Proof.
  intros rows k. split; [apply build_cluster_dict_keys_NoDup|].
  unfold build_cluster_dict.
  assert (H : forall acc,
    dict_get (fold_left
                (fun cluster_dict row =>
                   dict_set cluster_dict (ID row)
                            (split_on " " (Members row)))
                rows acc) k
    = match find (fun row => String.eqb (ID row) k) (rev rows) with
      | Some row => Some (split_on " " (Members row))
      | None => dict_get acc k
      end).
  { induction rows as [|row rows IH]; intros acc; simpl; [reflexivity|].
    rewrite IH, find_snoc.
    destruct (find (fun row0 => String.eqb (ID row0) k) (rev rows));
      [reflexivity|].
    destruct (String.eqb_spec (ID row) k).
    - subst k. apply dict_get_set_same.
    - now apply dict_get_set_other. }
  rewrite H. now destruct (find _ (rev rows)).
Qed.

(** ** m_elements: which clusters hold which anchor *)

Lemma extend_nil (o : option (list nat)) : extend o [] = o.
Proof. destruct o as [l|]; simpl; [now rewrite app_nil_r | reflexivity]. Qed.

Lemma extend_cons (o : option (list nat)) (i : nat) (p : list nat) :
  extend (extend o [i]) p = extend o (i :: p).
Proof.
  destruct o as [l|]; simpl; [now rewrite <- app_assoc | reflexivity].
Qed.

Lemma record_anchor_get (d : list (string * list nat)) (m0 m : string)
    (i : nat) :
  dict_get (Overlap.record_anchor d m0 i) m
  = if String.eqb m0 m then extend (dict_get d m0) [i] else dict_get d m.
Proof.
  unfold Overlap.record_anchor.
  destruct (String.eqb_spec m0 m).
  - subst m. destruct (dict_get d m0); now rewrite dict_get_set_same.
  - destruct (dict_get d m0); now rewrite dict_get_set_other.
Qed.

Lemma record_anchor_keys_NoDup (d : list (string * list nat)) m i :
  NoDup (keys d) -> NoDup (keys (Overlap.record_anchor d m i)).
Proof.
  intros H. unfold Overlap.record_anchor.
  destruct (dict_get d m); now apply dict_set_keys_NoDup.
Qed.

Lemma record_fold_get (i : nat) (m : string) :
  forall m_star d,
    NoDup m_star ->
    dict_get (fold_left (fun d m => Overlap.record_anchor d m i) m_star d) m
    = if mem m m_star then extend (dict_get d m) [i] else dict_get d m.
Proof.
  induction m_star as [|m0 rest IH]; intros d Hnd; simpl; [reflexivity|].
  inversion Hnd; subst. rewrite IH by assumption.
  rewrite record_anchor_get. rewrite (String.eqb_sym m m0).
  destruct (String.eqb_spec m0 m).
  - subst m0. simpl.
    assert (Hm : mem m rest = false) by now apply mem_false_iff.
    now rewrite Hm.
  - simpl. reflexivity.
Qed.

Lemma record_fold_keys_NoDup (i : nat) :
  forall m_star d,
    NoDup (keys d) ->
    NoDup (keys (fold_left (fun d m => Overlap.record_anchor d m i) m_star d)).
Proof.
  induction m_star as [|m0 rest IH]; intros d Hd; simpl; [assumption|].
  apply IH. now apply record_anchor_keys_NoDup.
Qed.

Lemma mem_filter (f : string -> bool) (l : list string) (x : string) :
  mem x (filter f l) = mem x l && f x.
Proof.
  destruct (mem x (filter f l)) eqn:E.
  - apply mem_true_iff, filter_In in E. destruct E as [H1 H2].
    apply mem_true_iff in H1. now rewrite H1, H2.
  - destruct (mem x l) eqn:E1, (f x) eqn:E2; try reflexivity.
    apply mem_false_iff in E. exfalso. apply E, filter_In.
    split; [now apply mem_true_iff | assumption].
Qed.

Lemma populate_get (metabolite_features : list string) (m : string) :
  forall clusters k d,
    Forall (@NoDup string) clusters ->
    dict_get (Overlap.populate metabolite_features k clusters d) m
    = extend (dict_get d m)
             (if mem m metabolite_features then positions k clusters m
              else []).
Proof.
  induction clusters as [|cluster rest IH]; intros k d Hnd; simpl.
  - destruct (mem m metabolite_features); now rewrite extend_nil.
  - inversion Hnd; subst. rewrite IH by assumption.
    rewrite record_fold_get by now apply NoDup_filter.
    rewrite mem_filter.
    destruct (mem m metabolite_features); simpl.
    + destruct (mem m cluster); simpl; [apply extend_cons | reflexivity].
    + now rewrite andb_false_r.
Qed.

Lemma populate_keys_NoDup (metabolite_features : list string) :
  forall clusters k d,
    NoDup (keys d) ->
    NoDup (keys (Overlap.populate metabolite_features k clusters d)).
Proof.
  induction clusters as [|cluster rest IH]; intros k d Hd; simpl;
    [assumption|].
  apply IH. now apply record_fold_keys_NoDup.
Qed.

(** The index lists that the anchor loop goes through. *)
Lemma m_elements_entries (metabolite_features : list string)
    (clusters : list (list string)) (indices : list nat) :
  Forall (@NoDup string) clusters ->
  (In indices
      (map snd (Overlap.populate metabolite_features 0 clusters []))
   <-> exists m, mem m metabolite_features = true
                 /\ indices = positions 0 clusters m /\ indices <> []).
Proof.
  intros Hnd.
  pose proof (populate_keys_NoDup metabolite_features clusters 0 []
                (NoDup_nil _)) as Hkeys.
  split.
  - intros Hin. apply in_map_iff in Hin. destruct Hin as [[m idx] [<- Hin]].
    apply (dict_get_In _ m idx Hkeys) in Hin.
    rewrite populate_get in Hin by assumption. simpl in Hin.
    exists m. destruct (mem m metabolite_features); [|discriminate].
    destruct (positions 0 clusters m) as [|a p]; [discriminate|].
    simpl in Hin. inversion Hin. repeat split. discriminate.
  - intros [m [Hm [-> Hne]]]. apply in_map_iff.
    exists (m, positions 0 clusters m). split; [reflexivity|].
    apply (dict_get_In _ _ _ Hkeys).
    rewrite populate_get by assumption. simpl. rewrite Hm.
    now destruct (positions 0 clusters m).
Qed.

Lemma positions_In (m : string) :
  forall clusters k i,
    In i (positions k clusters m)
    <-> k <= i /\ i - k < List.length clusters
        /\ mem m (nth (i - k) clusters []) = true.
Proof.
  induction clusters as [|c rest IH]; intros k i; simpl.
  - split; [intros [] | intros [_ [H _]]; lia].
  - assert (Hrest : In i (positions (S k) rest m)
                    <-> k < i /\ i - k < S (List.length rest)
                        /\ mem m (nth (i - k) (c :: rest) []) = true).
    { rewrite IH. split.
      - intros [H1 [H2 H3]]. repeat split; try lia.
        replace (i - k) with (S (i - S k)) by lia. exact H3.
      - intros [H1 [H2 H3]]. repeat split; try lia.
        replace (i - k) with (S (i - S k)) in H3 by lia. exact H3. }
    destruct (mem m c) eqn:Hc.
    + simpl. rewrite Hrest. split.
      * intros [<-|[H1 [H2 H3]]].
        -- rewrite Nat.sub_diag. repeat split; try lia. exact Hc.
        -- repeat split; try lia. exact H3.
      * intros [H1 [H2 H3]].
        destruct (Nat.eq_dec k i) as [->|Hne]; [now left|].
        right. repeat split; try lia. exact H3.
    + rewrite Hrest. split.
      * intros [H1 [H2 H3]]. repeat split; try lia. exact H3.
      * intros [H1 [H2 H3]].
        destruct (Nat.eq_dec k i) as [->|Hne].
        -- rewrite Nat.sub_diag in H3. simpl in H3. congruence.
        -- repeat split; try lia. exact H3.
Qed.

Lemma positions_NoDup (m : string) :
  forall clusters k, NoDup (positions k clusters m).
Proof.
  induction clusters as [|c rest IH]; intros k; simpl; [constructor|].
  destruct (mem m c); [|apply IH].
  constructor; [|apply IH].
  intros Hin. apply positions_In in Hin. lia.
Qed.

Lemma two_elements_length {A : Type} (l : list A) (a b : A) :
  In a l -> In b l -> a <> b -> 1 < List.length l.
Proof.
  destruct l as [|x [|y l]]; simpl; intros Ha Hb Hne; try lia.
  destruct Ha as [Ha|[]], Hb as [Hb|[]]. congruence.
Qed.

Lemma length_two_elements {A : Type} (l : list A) :
  NoDup l -> 1 < List.length l ->
  exists a b, In a l /\ In b l /\ a <> b.
Proof.
  destruct l as [|x [|y l]]; simpl; intros Hnd Hlen; try lia.
  exists x, y. repeat split; [now left | right; now left|].
  inversion Hnd; subst. intros ->. apply H1. now left.
Qed.

Lemma member_sets_NoDup (rows : list ClusterRow) :
  Forall (@NoDup string) (member_sets rows).
Proof.
  unfold member_sets. apply Forall_forall. intros c Hc.
  apply in_map_iff in Hc. destruct Hc as [row [<- _]]. apply set_NoDup.
Qed.

Lemma clusters_of_unique (rows : list ClusterRow) :
  NoDup (map ID rows) ->
  Overlap.clusters_of (build_cluster_dict rows) = member_sets rows.
Proof.
  intros Hnd. rewrite (build_cluster_dict_unique rows Hnd).
  unfold Overlap.clusters_of, member_sets. now rewrite map_map.
Qed.

(** ** The overlap merger: what a shared anchor guarantees *)

Lemma anchor_fold_keeps (clusters : list (list string)) :
  forall l st s,
    In s (Overlap.merged_clusters st) ->
    exists s',
      In s' (Overlap.merged_clusters
               (fold_left (Overlap.anchor_step clusters) l st))
      /\ forall x, In x s -> In x s'.
Proof.
  induction l as [|indices l IH]; intros st s Hs; simpl.
  - exists s. split; [assumption | auto].
  - assert (Hstep : exists s1,
              In s1 (Overlap.merged_clusters
                       (Overlap.anchor_step clusters st indices))
              /\ forall x, In x s -> In x s1).
    { unfold Overlap.anchor_step.
      destruct (1 <? List.length indices); simpl.
      - now apply absorb_keeps.
      - exists s. split; [assumption | auto]. }
    destruct Hstep as [s1 [Hs1 Hsub1]].
    destruct (IH _ s1 Hs1) as [s' [Hs' Hsub']].
    exists s'. split; [assumption | auto].
Qed.

Lemma anchor_fold_covers (clusters : list (list string)) (indices : list nat) :
  1 < List.length indices ->
  forall l st,
    In indices l ->
    exists s,
      In s (Overlap.merged_clusters
              (fold_left (Overlap.anchor_step clusters) l st))
      /\ forall x, In x (Overlap.merged_set_of clusters indices) -> In x s.
Proof.
  intros Hlen. induction l as [|idx l IH]; intros st Hin; [destruct Hin|].
  simpl. destruct Hin as [->|Hin]; [|now apply IH].
  assert (Hstep : exists s1,
            In s1 (Overlap.merged_clusters
                     (Overlap.anchor_step clusters st indices))
            /\ forall x, In x (Overlap.merged_set_of clusters indices) ->
                         In x s1).
  { unfold Overlap.anchor_step.
    apply Nat.ltb_lt in Hlen. rewrite Hlen. simpl.
    apply absorb_covers_new. }
  destruct Hstep as [s1 [Hs1 Hsub1]].
  destruct (anchor_fold_keeps clusters l _ s1 Hs1) as [s' [Hs' Hsub']].
  exists s'. split; [assumption | auto].
Qed.

(** X2. Two different clusters of the slice that hold a common anchor are
    merged: some merged set contains every member of both. (IDs in the
    slice are distinct.) *)
Theorem overlap_shared_anchor_merges :
  forall df metabolite_features dr row1 row2 m,
    NoDup (map ID (select_rows df dr)) ->
    In row1 (select_rows df dr) ->
    In row2 (select_rows df dr) ->
    row1 <> row2 ->
    In m metabolite_features ->
    In m (split_on " " (Members row1)) ->
    In m (split_on " " (Members row2)) ->
    exists s,
      In s (Overlap.merged_sets df metabolite_features dr)
      /\ forall x, In x (split_on " " (Members row1))
                   \/ In x (split_on " " (Members row2)) -> In x s.
Proof.
  intros df metabolite_features dr row1 row2 m Hnd H1 H2 Hne Hm Hm1 Hm2.
  unfold Overlap.merged_sets. rewrite (clusters_of_unique _ Hnd).
  set (rows := select_rows df dr) in *.
  set (clusters := member_sets rows).
  pose proof (member_sets_NoDup rows) as Hsets. fold clusters in Hsets.
  destruct (In_nth rows row1 row1 H1) as [i [Hi Hrow1]].
  destruct (In_nth rows row2 row1 H2) as [j [Hj Hrow2]].
  assert (Hij : i <> j) by (intros ->; congruence).
  assert (Hnth : forall n r, n < List.length rows -> nth n rows row1 = r ->
                             nth n clusters []
                             = set_ (split_on " " (Members r))).
  { intros n r Hn <-. unfold clusters, member_sets.
    rewrite (nth_indep _ [] (set_ (split_on " " (Members row1))))
      by now rewrite length_map.
    apply (map_nth (fun row => set_ (split_on " " (Members row)))). }
  assert (Hlen : List.length clusters = List.length rows)
    by (unfold clusters, member_sets; apply length_map).
  assert (Hpi : In i (positions 0 clusters m)).
  { apply positions_In. rewrite Nat.sub_0_r. repeat split; try lia.
    rewrite (Hnth i row1 Hi Hrow1). now apply mem_true_iff, set_In. }
  assert (Hpj : In j (positions 0 clusters m)).
  { apply positions_In. rewrite Nat.sub_0_r. repeat split; try lia.
    rewrite (Hnth j row2 Hj Hrow2). now apply mem_true_iff, set_In. }
  assert (Hentry : In (positions 0 clusters m)
                      (map snd (Overlap.populate metabolite_features 0
                                                 clusters []))).
  { apply m_elements_entries; [assumption|]. exists m.
    split; [now apply mem_true_iff|]. split; [reflexivity|].
    intros Hnil. rewrite Hnil in Hpi. destruct Hpi. }
  destruct (anchor_fold_covers clusters (positions 0 clusters m)
              (two_elements_length _ i j Hpi Hpj Hij)
              _ (Overlap.mkMergeState [] []) Hentry) as [s [Hs Hsub]].
  exists s. split; [apply in_app_iff; now left|].
  intros x Hx. apply Hsub, merged_set_of_In.
  destruct Hx as [Hx|Hx].
  - exists i. split; [assumption|].
    rewrite (Hnth i row1 Hi Hrow1). now apply set_In.
  - exists j. split; [assumption|].
    rewrite (Hnth j row2 Hj Hrow2). now apply set_In.
Qed.

(** Clusters [A = m1 g1 g2] and [B = m1 g3] of the overlap scenario. *)
Lemma overlap_shared_anchor_merges_witness :
  exists s,
    In s (Overlap.merged_sets overlap_scenario ["m1"] 25)
    /\ forall x, In x (split_on " " "m1 g1 g2")
                 \/ In x (split_on " " "m1 g3") -> In x s.
Proof.
  apply (overlap_shared_anchor_merges overlap_scenario ["m1"] 25%Z
           (mkClusterRow "A" "m1 g1 g2" "DR_25")
           (mkClusterRow "B" "m1 g3" "DR_25") "m1").
  - vm_compute. repeat constructor; simpl; intuition discriminate.
  - vm_compute. now left.
  - vm_compute. right. now left.
  - discriminate.
  - now left.
  - vm_compute. now left.
  - vm_compute. now left.
Defined.

Lemma anchor_fold_idle (clusters : list (list string)) :
  forall l st,
    (forall indices, In indices l -> List.length indices <= 1) ->
    fold_left (Overlap.anchor_step clusters) l st = st.
Proof.
  induction l as [|indices l IH]; intros st Hl; simpl; [reflexivity|].
  assert (Hstep : Overlap.anchor_step clusters st indices = st).
  { unfold Overlap.anchor_step.
    assert (Hle : List.length indices <= 1) by (apply Hl; now left).
    apply Nat.ltb_ge in Hle. now rewrite Hle. }
  rewrite Hstep. apply IH. intros indices' Hin. apply Hl. now right.
Qed.

Lemma remaining_none_visited (clusters : list (list string)) :
  forall k, Overlap.remaining k clusters [] = clusters.
Proof.
  induction clusters as [|c rest IH]; intros k; simpl; [reflexivity|].
  now rewrite IH.
Qed.

(** X3. When no anchor occurs in two different clusters of the slice,
    nothing is merged: the merged sets are the member sets of the rows, one
    per row and in row order. (IDs in the slice are distinct.) *)
Theorem overlap_without_shared_anchor :
  forall df metabolite_features dr,
    NoDup (map ID (select_rows df dr)) ->
    (forall row1 row2 m,
        In row1 (select_rows df dr) -> In row2 (select_rows df dr) ->
        row1 <> row2 -> In m metabolite_features ->
        In m (split_on " " (Members row1)) ->
        In m (split_on " " (Members row2)) -> False) ->
    Overlap.merged_sets df metabolite_features dr
    = member_sets (select_rows df dr).
Proof.
  intros df metabolite_features dr Hnd Hapart.
  unfold Overlap.merged_sets. rewrite (clusters_of_unique _ Hnd).
  set (rows := select_rows df dr) in *.
  set (clusters := member_sets rows).
  pose proof (member_sets_NoDup rows) as Hsets. fold clusters in Hsets.
  assert (Hlen : List.length clusters = List.length rows)
    by (unfold clusters, member_sets; apply length_map).
  rewrite anchor_fold_idle.
  - simpl. apply remaining_none_visited.
  - intros indices Hin.
    apply m_elements_entries in Hin; [|assumption].
    destruct Hin as [m [Hm [-> _]]].
    destruct (Nat.le_gt_cases (List.length (positions 0 clusters m)) 1)
      as [Hle|Hgt]; [assumption|exfalso].
    destruct (length_two_elements _ (positions_NoDup m clusters 0) Hgt)
      as [i [j [Hi [Hj Hij]]]].
    apply positions_In in Hi, Hj. rewrite Nat.sub_0_r in Hi, Hj.
    destruct Hi as [_ [Hi Hmi]]. destruct Hj as [_ [Hj Hmj]].
    rewrite Hlen in Hi, Hj.
    set (d := mkClusterRow "" "" "").
    assert (Hnth : forall n, n < List.length rows ->
                             nth n clusters []
                             = set_ (split_on " " (Members (nth n rows d)))).
    { intros n Hn. unfold clusters, member_sets.
      rewrite (nth_indep _ [] (set_ (split_on " " (Members d))))
        by now rewrite length_map.
      apply (map_nth (fun row => set_ (split_on " " (Members row)))). }
    rewrite Hnth in Hmi, Hmj by assumption.
    apply mem_true_iff in Hmi. apply mem_true_iff in Hmj.
    rewrite set_In in Hmi, Hmj.
    apply (Hapart (nth i rows d) (nth j rows d) m);
      try assumption; try (now apply nth_In).
    + intros Heq. apply Hij.
      apply (proj1 (NoDup_nth (map ID rows) "") Hnd i j);
        try (now rewrite length_map).
      change (nth i (map ID rows) (ID d) = nth j (map ID rows) (ID d)).
      rewrite !map_nth. now rewrite Heq.
    + now apply mem_true_iff.
Qed.

(** Clusters [A = g1 g2] and [B = g2 g3] with the anchor list [[m1]]. *)
Lemma overlap_without_shared_anchor_witness :
  Overlap.merged_sets shared_gene_clusters ["m1"] 25
  = member_sets (select_rows shared_gene_clusters 25).
Proof.
  apply (overlap_without_shared_anchor shared_gene_clusters ["m1"] 25%Z).
  - vm_compute. repeat constructor; simpl; intuition discriminate.
  - intros row1 row2 m H1 _ _ Hm Hm1 _.
    destruct Hm as [<-|[]].
    vm_compute in H1. destruct H1 as [<-|[<-|[]]]; vm_compute in Hm1;
      intuition discriminate.
Defined.

(** ** The overlap merger: what becomes of the merged set of an anchor *)














(** The overlap scenario: [g3] of cluster [B] is in a merged set. *)
Lemma overlap_covers_all_members_witness :
  exists s, In s (Overlap.merged_sets overlap_scenario ["m1"] 25)
            /\ In "g3" s.
Proof.
  apply (overlap_covers_all_members overlap_scenario ["m1"] 25%Z).
  - vm_compute. repeat constructor; simpl; intuition discriminate.
  - exists (mkClusterRow "B" "m1 g3" "DR_25"). split.
    + vm_compute. right. now left.
    + vm_compute. right. now left.
Defined.

(** ** The overlap merger: the IDs of the merged clusters *)

Lemma to_uint_nonnil (n : nat) : Nat.to_uint n <> Decimal.Nil.
Proof.
  intros H. pose proof (DecimalNat.Unsigned.of_to n) as Hof.
  rewrite H in Hof. simpl in Hof. subst n. discriminate H.
Qed.

Lemma str_of_nat_inj (n n' : nat) : str_of_nat n = str_of_nat n' -> n = n'.
Proof.
  unfold str_of_nat. intros H.
  apply DecimalNat.Unsigned.to_uint_inj.
  pose proof (NilZero.usu (Nat.to_uint n) (to_uint_nonnil n)) as H1.
  pose proof (NilZero.usu (Nat.to_uint n') (to_uint_nonnil n')) as H2.
  rewrite H in H1. rewrite H1 in H2. now inversion H2.
Qed.

Lemma rows_from_ids (metabolite_features : list string) :
  forall merged i,
    map Overlap.mID (Overlap.rows_from i metabolite_features merged)
    = map (fun n => ("MC_" ++ str_of_nat n)%string)
          (seq (i + 1) (List.length merged)).
Proof.
  induction merged as [|c merged IH]; intros i; simpl; [reflexivity|].
  rewrite IH. now replace (S i + 1) with (S (i + 1)) by lia.
Qed.

(** X5. The merged clusters are numbered in the order in which the merged
    sets were produced: the IDs are [MC_1], [MC_2], ... up to the number
    of merged sets, and no two rows share an ID. *)
Theorem overlap_ids_sequential :
  forall df metabolite_features dr,
    map Overlap.mID
        (Overlap.merge_clusters_overlapping df metabolite_features dr)
    = map (fun n => ("MC_" ++ str_of_nat n)%string)
          (seq 1 (List.length
                    (Overlap.merged_sets df metabolite_features dr)))
    /\ NoDup (map Overlap.mID
                  (Overlap.merge_clusters_overlapping
                     df metabolite_features dr)).
Proof.
  intros df metabolite_features dr.
  unfold Overlap.merge_clusters_overlapping. rewrite rows_from_ids.
  split; [reflexivity|].
  apply Injective_map_NoDup; [|apply seq_NoDup].
  intros a b Heq. inversion Heq. now apply str_of_nat_inj.
Qed.

(** ** The decay rate selects the slice *)

Lemma filter_idempotent {A : Type} (f : A -> bool) (l : list A) :
  filter f (filter f l) = filter f l.
Proof.
  induction l as [|a l IH]; simpl; [reflexivity|].
  destruct (f a) eqn:E; simpl; [now rewrite E, IH | exact IH].
Qed.

Lemma select_rows_idempotent (df : list ClusterRow) (dr : Z) :
  select_rows (select_rows df dr) dr = select_rows df dr.
Proof. unfold select_rows. apply filter_idempotent. Qed.

(** X6. Both mergers work on the rows whose [Source] is the requested
    decay rate and on nothing else: rows of other decay rates can be
    dropped from the table without changing the result, and when no row
    has the decay rate both return an empty table instead of failing. *)
Theorem mergers_read_one_decay_rate :
  forall df dr,
    (forall metabolite_features,
        Overlap.merge_clusters_overlapping df metabolite_features dr
        = Overlap.merge_clusters_overlapping (select_rows df dr)
                                             metabolite_features dr)
    /\ (forall fuel coexpression_df threshold,
           Coex.merge_clusters_coex fuel df coexpression_df dr threshold
           = Coex.merge_clusters_coex fuel (select_rows df dr)
                                      coexpression_df dr threshold)
    /\ (select_rows df dr = [] ->
        (forall metabolite_features,
            Overlap.merge_clusters_overlapping df metabolite_features dr = [])
        /\ (forall fuel coexpression_df threshold,
               Coex.merge_clusters_coex fuel df coexpression_df dr threshold
               = Some (Ok []))).
Proof.
  intros df dr. repeat split.
  - intros mf. unfold Overlap.merge_clusters_overlapping, Overlap.merged_sets.
    now rewrite select_rows_idempotent.
  - intros fuel coex thr. unfold Coex.merge_clusters_coex.
    now rewrite select_rows_idempotent.
  - intros mf. unfold Overlap.merge_clusters_overlapping, Overlap.merged_sets.
    now rewrite H.
  - intros fuel coex thr. unfold Coex.merge_clusters_coex. now rewrite H.
Qed.

(** A table that holds clusters of decay rate 5 only, read at 25. *)
Lemma mergers_read_one_decay_rate_witness :
  (forall metabolite_features,
      Overlap.merge_clusters_overlapping
        [mkClusterRow "D" "m1 g9" "DR_5"] metabolite_features 25 = [])
  /\ (forall fuel coexpression_df threshold,
         Coex.merge_clusters_coex fuel [mkClusterRow "D" "m1 g9" "DR_5"]
                                  coexpression_df 25 threshold
         = Some (Ok [])).
Proof.
  apply (proj2 (proj2 (mergers_read_one_decay_rate
                         [mkClusterRow "D" "m1 g9" "DR_5"] 25%Z))).
  reflexivity.
Defined.

(** ** The coexpression merger: the connection test *)

Lemma connected_genes_In coexpression_df threshold gene x :
  In x (Coex.connected_genes coexpression_df threshold gene)
  <-> exists r, In r coexpression_df
                /\ (gene1 r = gene \/ gene2 r = gene)
                /\ (threshold <= edgeweight r)%Q
                /\ (x = gene1 r \/ x = gene2 r).
Proof.
  unfold Coex.connected_genes.
  rewrite update_In, !set_In, !in_map_iff.
  assert (Hf : forall r,
    In r (filter
            (fun r =>
               (String.eqb (gene1 r) gene && Qle_bool threshold (edgeweight r))
               || (String.eqb (gene2 r) gene
                   && Qle_bool threshold (edgeweight r)))
            coexpression_df)
    <-> In r coexpression_df
        /\ (gene1 r = gene \/ gene2 r = gene)
        /\ (threshold <= edgeweight r)%Q).
  { intros r. rewrite filter_In, orb_true_iff, !andb_true_iff,
      !String.eqb_eq, Qle_bool_iff. tauto. }
  split.
  - intros [[r [Hx Hr]]|[r [Hx Hr]]]; apply Hf in Hr;
      exists r; intuition.
  - intros [r [H1 [H2 [H3 [Hx|Hx]]]]].
    + left. exists r. split; [auto|]. apply Hf. tauto.
    + right. exists r. split; [auto|]. apply Hf. tauto.
Qed.

Lemma gene_loop_true coexpression_df threshold other c :
  forall genes,
    Coex.gene_loop coexpression_df threshold genes other c = Some true
    <-> c = Some true \/ linked coexpression_df threshold genes other.
Proof.
  induction genes as [|gene rest IH]; simpl.
  - split; [now left|]. intros [H|[g [r [[] _]]]]. exact H.
  - destruct (intersects (Coex.connected_genes coexpression_df threshold gene)
                         (set_ other)) eqn:Hi.
    + split; [|reflexivity]. intros _. right.
      apply intersects_true_iff in Hi. destruct Hi as [x [Hx Ho]].
      apply connected_genes_In in Hx. rewrite set_In in Ho.
      destruct Hx as [r [H1 [H2 [H3 H4]]]].
      exists gene, r. split; [now left|]. repeat split; try assumption.
      destruct H4 as [<-|<-]; [now left | now right].
    + rewrite IH. split.
      * intros [H|[g [r [Hg Hr]]]]; [now left|].
        right. exists g, r. split; [now right | assumption].
      * intros [H|[g [r [[<-|Hg] [H1 [H2 [H3 H4]]]]]]]; [now left| |].
        -- exfalso. rewrite intersects_false_iff in Hi.
           destruct H4 as [H4|H4].
           ++ apply (Hi (gene1 r)); [|now apply set_In].
              apply connected_genes_In. exists r. intuition.
           ++ apply (Hi (gene2 r)); [|now apply set_In].
              apply connected_genes_In. exists r. intuition.
        -- right. exists g, r. repeat split; assumption.
Qed.

Lemma coex_connection_test_lemma coexpression_df threshold current other c :
  (linked coexpression_df threshold current other ->
   Coex.gene_loop coexpression_df threshold current other c = Some true)
  /\ (~ linked coexpression_df threshold current other ->
      Coex.gene_loop coexpression_df threshold current other c = c).
Proof.
  split.
  - intros H. apply gene_loop_true. now right.
  - intros Hn.
    destruct (gene_loop_cases coexpression_df threshold current other c)
      as [Ht|Hc]; [|exact Hc].
    apply gene_loop_true in Ht. destruct Ht as [->|Hl];
      [|contradiction].
    apply gene_loop_true. now left.
Qed.

(** X7. The connection test of a pass: after the loop over the genes of the
    current set, [connected] is [True] when some gene of the current set
    lies on an edge of weight at least the threshold one of whose two ends
    (the gene itself counts) is in the candidate cluster; otherwise the loop
    leaves [connected] as it found it, unbound or with the value of an
    earlier candidate. *)
Theorem coex_connection_test :
  forall coexpression_df threshold current other c,
    (linked coexpression_df threshold current other ->
     Coex.gene_loop coexpression_df threshold current other c = Some true)
    /\ (~ linked coexpression_df threshold current other ->
        Coex.gene_loop coexpression_df threshold current other c = c).
Proof.
  intros coexpression_df threshold current other c. split.
  - intros H. apply gene_loop_true. now right.
  - intros Hn.
    destruct (gene_loop_cases coexpression_df threshold current other c)
      as [Ht|Hc]; [|exact Hc].
    apply gene_loop_true in Ht. destruct Ht as [->|Hl];
      [|contradiction].
    apply gene_loop_true. now left.
Qed.

(** The scenario: [g1] lies on the edge [(g1, g2, 0.9)], whose other end is
    in [Y]; at threshold 0.95 the test leaves [connected] unbound. *)
Lemma coex_connection_test_witness :
  Coex.gene_loop scenario_edges (1 # 2) ["g1"] ["g2"] None = Some true
  /\ Coex.gene_loop scenario_edges (19 # 20) ["g1"] ["g2"] None = None.
Proof.
  split.
  - apply (proj1 (coex_connection_test scenario_edges (1 # 2)
                    ["g1"] ["g2"] None)).
    exists "g1", (mkCoexRow "g1" "g2" (9 # 10)).
    split; [now left|]. split; [now left|]. split; [now left|].
    split; [discriminate|]. right. now left.
  - apply (proj2 (coex_connection_test scenario_edges (19 # 20)
                    ["g1"] ["g2"] None)).
    intros [g [r [_ [[<-|[]] [_ [Hle _]]]]]]. now apply Hle.
Defined.

(** ** The coexpression merger: what a normal return looks like *)

Lemma pass_absorbs_all coexpression_df threshold visited cluster_key :
  forall items st p,
    Coex.connected st <> Some false ->
    Coex.pass coexpression_df threshold visited cluster_key items st = Ok p ->
    Coex.connected p <> Some false
    /\ (forall k, In k (keys items) -> mem k visited = false ->
                  k <> cluster_key -> In k (Coex.clusters_to_merge p))
    /\ (forall k, In k (Coex.clusters_to_merge st) ->
                  In k (Coex.clusters_to_merge p))
    /\ (forall x, In x (Coex.current_cluster p)
                  <-> In x (Coex.current_cluster st)
                      \/ exists k c, In (k, c) items /\ mem k visited = false
                                     /\ k <> cluster_key /\ In x c)
    /\ (NoDup (Coex.current_cluster st) -> NoDup (Coex.current_cluster p)).
Proof.
  induction items as [|[k0 c0] rest IH]; intros st p Hc; simpl.
  - intros H. inversion H; subst. split; [assumption|].
    split; [intros k []|]. split; [auto|]. split; [|auto].
    intros x. split; [now left|]. intros [H0|[k [c [[] _]]]]. exact H0.
  - destruct (mem k0 visited || String.eqb k0 cluster_key) eqn:Hskip.
    + intros H. destruct (IH st p Hc H) as [H1 [H2 [H3 [H4 H5]]]].
      split; [assumption|]. split; [|split; [assumption|split; [|assumption]]].
      * intros k [<-|Hk] Hv Hne; [|now apply H2].
        apply orb_true_iff in Hskip. destruct Hskip as [Hs|Hs];
          [congruence|]. apply String.eqb_eq in Hs. contradiction.
      * intros x. rewrite H4. split.
        -- intros [Hx|[k [c [Hin Hrest]]]]; [now left|].
           right. exists k, c. split; [now right | assumption].
        -- intros [Hx|[k [c [[Heq|Hin] [Hv [Hne Hx]]]]]]; [now left| |].
           ++ inversion Heq; subst k c.
              apply orb_true_iff in Hskip. destruct Hskip as [Hs|Hs];
                [congruence|]. apply String.eqb_eq in Hs. contradiction.
           ++ right. now exists k, c.
    + apply orb_false_iff in Hskip. destruct Hskip as [Hv0 Hk0].
      apply String.eqb_neq in Hk0.
      assert (Hg : Coex.gene_loop coexpression_df threshold
                     (Coex.current_cluster st) c0 (Coex.connected st)
                   = Some true
                   \/ Coex.gene_loop coexpression_df threshold
                        (Coex.current_cluster st) c0 (Coex.connected st)
                      = None).
      { destruct (gene_loop_cases coexpression_df threshold
                    (Coex.current_cluster st) c0 (Coex.connected st))
          as [Hg|Hg]; [now left|].
        rewrite Hg. destruct (Coex.connected st) as [[|]|];
          [now left | contradiction | now right]. }
      destruct Hg as [Hg|Hg]; rewrite Hg; [|discriminate].
      intros H.
      assert (Hc1 : Coex.connected
                      (Coex.mkPassState
                         (update (Coex.current_cluster st) c0)
                         (Coex.clusters_to_merge st ++ [k0]) true (Some true))
                    <> Some false) by discriminate.
      destruct (IH _ p Hc1 H) as [H1 [H2 [H3 [H4 H5]]]].
      simpl in H3, H4, H5.
      split; [assumption|]. split; [|split; [|split]].
      * intros k [<-|Hk] Hv Hne; [|now apply H2].
        apply H3, in_app_iff. right. now left.
      * intros k Hk. apply H3, in_app_iff. now left.
      * intros x. rewrite H4, update_In. split.
        -- intros [[Hx|Hx]|[k [c [Hin Hrest]]]].
           ++ now left.
           ++ right. exists k0, c0. split; [now left|]. now repeat split.
           ++ right. exists k, c. split; [now right | assumption].
        -- intros [Hx|[k [c [[Heq|Hin] [Hv [Hne Hx]]]]]].
           ++ left. now left.
           ++ inversion Heq; subst k c. left. now right.
           ++ right. now exists k, c.
      * intros Hnd. apply H5. now apply update_NoDup.
Qed.

Lemma mem_update_l (s t : list string) (k : string) :
  mem k s = true -> mem k (update s t) = true.
Proof.
  intros H. apply mem_true_iff, update_In. left. now apply mem_true_iff.
Qed.

Lemma while_loop_absorbs_all coexpression_df threshold cluster_dict
    cluster_key :
  forall fuel st st',
    Coex.l_connected st <> Some false ->
    Coex.while_loop fuel coexpression_df threshold cluster_dict cluster_key st
    = Some (Ok st') ->
    Coex.l_connected st' <> Some false
    /\ (forall k, In k (keys cluster_dict) -> k <> cluster_key ->
                  mem k (Coex.l_visited st') = true)
    /\ (forall k, mem k (Coex.l_visited st) = true ->
                  mem k (Coex.l_visited st') = true)
    /\ (forall x, In x (Coex.l_current st')
                  <-> In x (Coex.l_current st)
                      \/ exists k c, In (k, c) cluster_dict
                                     /\ mem k (Coex.l_visited st) = false
                                     /\ k <> cluster_key /\ In x c)
    /\ (NoDup (Coex.l_current st) -> NoDup (Coex.l_current st')).
Proof.
  induction fuel as [|fuel IH]; intros st st' Hc; simpl; [discriminate|].
  destruct (Coex.pass _ _ _ _ _ _) as [p|e] eqn:Hp; [|discriminate].
  assert (Hc0 : Coex.connected
                  (Coex.mkPassState (Coex.l_current st) [] false
                                    (Coex.l_connected st)) <> Some false)
    by exact Hc.
  destruct (pass_absorbs_all _ _ _ _ _ _ _ Hc0 Hp) as [H1 [H2 [_ [H4 H5]]]].
  simpl in H4, H5.
  assert (Hall : forall k, In k (keys cluster_dict) -> k <> cluster_key ->
                   mem k (update (Coex.l_visited st)
                                 (Coex.clusters_to_merge p)) = true).
  { intros k Hk Hne. destruct (mem k (Coex.l_visited st)) eqn:Hv.
    - now apply mem_update_l.
    - apply mem_true_iff, update_In. right. now apply H2. }
  destruct (Coex.merge_occurred p).
  - intros H.
    destruct (IH (Coex.mkLoopState
                    (Coex.current_cluster p)
                    (update (Coex.l_visited st) (Coex.clusters_to_merge p))
                    (Coex.connected p)) st' H1 H) as [G1 [G2 [G3 [G4 G5]]]].
    simpl in G3, G4, G5.
    split; [assumption|]. split; [assumption|]. split; [|split].
    + intros k Hk. apply G3. now apply mem_update_l.
    + intros x. rewrite G4, H4. split.
      * intros [[Hx|Hx]|[k [c [Hin [Hv [Hne Hx]]]]]];
          [now left | now right |].
        right. exists k, c. split; [assumption|]. split; [|now split].
        destruct (mem k (Coex.l_visited st)) eqn:Hv'; [|reflexivity].
        apply (mem_update_l _ (Coex.clusters_to_merge p)) in Hv'. congruence.
      * intros [Hx|Hx]; left; [now left | now right].
    + intros Hnd. apply G5. now apply H5.
  - intros H. inversion H; subst st'; clear H. simpl.
    split; [assumption|]. split; [assumption|]. split; [|split].
    + intros k Hk. now apply mem_update_l.
    + exact H4.
    + exact H5.
Qed.

Lemma seed_loop_skips coexpression_df threshold cluster_dict fuel :
  forall seeds st,
    (forall k, In k (keys seeds) -> mem k (Coex.visited_clusters st) = true) ->
    Coex.seed_loop fuel coexpression_df threshold cluster_dict seeds st
    = Some (Ok (Coex.merged_clusters st)).
Proof.
  induction seeds as [|[k c] rest IH]; intros st Hall; simpl; [reflexivity|].
  rewrite (Hall k (or_introl eq_refl)). apply IH.
  intros k' Hk'. apply Hall. now right.
Qed.

Lemma pass_bound_returns coexpression_df threshold visited cluster_key :
  forall items st,
    Coex.connected st = Some true ->
    exists p,
      Coex.pass coexpression_df threshold visited cluster_key items st = Ok p
      /\ Coex.connected p = Some true.
Proof.
  induction items as [|[k c] items IH]; intros st Hst; simpl.
  - now exists st.
  - destruct (mem k visited || String.eqb k cluster_key); [now apply IH|].
    destruct (gene_loop_cases coexpression_df threshold
                (Coex.current_cluster st) c (Coex.connected st))
      as [Hg|Hg]; rewrite Hg; [now apply IH|].
    rewrite Hst. now apply IH.
Qed.

Lemma while_loop_bound_no_raise coexpression_df threshold cluster_dict
    cluster_key :
  forall fuel st e,
    Coex.l_connected st = Some true ->
    Coex.while_loop fuel coexpression_df threshold cluster_dict cluster_key st
    <> Some (Raise e).
Proof.
  induction fuel as [|fuel IH]; intros st e Hst; simpl; [discriminate|].
  destruct (pass_bound_returns coexpression_df threshold (Coex.l_visited st)
              cluster_key cluster_dict
              (Coex.mkPassState (Coex.l_current st) [] false
                                (Coex.l_connected st)) Hst) as [p [Hp Hc]].
  rewrite Hp. destruct (Coex.merge_occurred p); [|discriminate].
  now apply IH.
Qed.

Lemma while_loop_Raise coexpression_df threshold cluster_dict cluster_key :
  forall fuel st e,
    Coex.while_loop fuel coexpression_df threshold cluster_dict cluster_key st
    = Some (Raise e) -> e = UnboundLocalError "connected".
Proof.
  induction fuel as [|fuel IH]; intros st e; simpl; [discriminate|].
  destruct (Coex.pass _ _ _ _ _ _) as [p|e'] eqn:Hp.
  - destruct (Coex.merge_occurred p); [apply IH | discriminate].
  - intros H. inversion H; subst. now apply pass_Raise in Hp.
Qed.

(** The merger as a whole in terms of the [while] loop of the first
    seed. *)
Lemma seed_loop_first coexpression_df threshold fuel k1 c1 tl :
  NoDup (keys ((k1, c1) :: tl)) ->
  Coex.seed_loop fuel coexpression_df threshold ((k1, c1) :: tl)
                 ((k1, c1) :: tl) (Coex.mkOuterState [] [] None)
  = match Coex.while_loop fuel coexpression_df threshold ((k1, c1) :: tl) k1
                          (Coex.mkLoopState (set_ c1) [] None) with
    | None => None
    | Some (Raise e) => Some (Raise e)
    | Some (Ok l) =>
        Some (Ok [Coex.mkMergedRow k1 (join " " (sorted (Coex.l_current l)))])
    end.
Proof.
  intros Hkeys.
  transitivity
    (match Coex.while_loop fuel coexpression_df threshold ((k1, c1) :: tl)
                           k1 (Coex.mkLoopState (set_ c1) [] None) with
     | None => None
     | Some (Raise e) => Some (Raise e)
     | Some (Ok l) =>
         Coex.seed_loop fuel coexpression_df threshold ((k1, c1) :: tl) tl
           (Coex.mkOuterState
              [Coex.mkMergedRow k1 (join " " (sorted (Coex.l_current l)))]
              (update (Coex.l_visited l) [k1])
              (Coex.l_connected l))
     end); [reflexivity|].
  set (cluster_dict := (k1, c1) :: tl) in *.
  destruct (Coex.while_loop fuel coexpression_df threshold cluster_dict k1
              (Coex.mkLoopState (set_ c1) [] None))
    as [[l|e]|] eqn:Hw; try reflexivity.
  assert (Hc : Coex.l_connected (Coex.mkLoopState (set_ c1) [] None)
               <> Some false) by discriminate.
  destruct (while_loop_absorbs_all _ _ _ _ _ _ _ Hc Hw) as [_ [Hall _]].
  apply (seed_loop_skips coexpression_df threshold cluster_dict fuel tl
           (Coex.mkOuterState
              [Coex.mkMergedRow k1 (join " " (sorted (Coex.l_current l)))]
              (update (Coex.l_visited l) [k1])
              (Coex.l_connected l))).
  simpl. intros k Hk. apply mem_true_iff, update_In.
  destruct (String.eqb_spec k k1) as [->|Hne].
  - right. now left.
  - left. apply mem_true_iff, Hall; [|assumption].
    unfold cluster_dict, keys. simpl. now right.
Qed.

(** X8. Whenever the coexpression merger returns a table, the table has at
    most one row: none for an empty slice, and otherwise one row that
    carries the ID of the first cluster of the slice and the sorted,
    duplicate-free members of all clusters of the slice. It never returns
    two merged clusters. *)
Theorem coex_returns_one_cluster :
  forall fuel df coexpression_df dr threshold merged_df,
    Coex.merge_clusters_coex fuel df coexpression_df dr threshold
    = Some (Ok merged_df) ->
    match build_cluster_dict (select_rows df dr) with
    | [] => merged_df = []
    | (first_key, _) :: _ =>
        exists members,
          merged_df
          = [Coex.mkMergedRow first_key (join " " (sorted members))]
          /\ NoDup members
          /\ forall x, In x members
                       <-> exists k c,
                             In (k, c)
                                (build_cluster_dict (select_rows df dr))
                             /\ In x c
    end.
Proof.
  intros fuel df coexpression_df dr threshold merged_df.
  unfold Coex.merge_clusters_coex.
  pose proof (build_cluster_dict_keys_NoDup (select_rows df dr)) as Hkeys.
  destruct (build_cluster_dict (select_rows df dr)) as [|[k1 c1] rest] eqn:Hd.
  - simpl. intros H. now inversion H.
  - rewrite (seed_loop_first _ _ _ _ _ _ Hkeys).
    set (cluster_dict := (k1, c1) :: rest) in *.
    destruct (Coex.while_loop fuel coexpression_df threshold cluster_dict k1
                (Coex.mkLoopState (set_ c1) [] None))
      as [[l|e]|] eqn:Hw; try discriminate.
    assert (Hc : Coex.l_connected (Coex.mkLoopState (set_ c1) [] None)
                 <> Some false) by discriminate.
    destruct (while_loop_absorbs_all _ _ _ _ _ _ _ Hc Hw)
      as [_ [_ [_ [Hmem Hnd]]]].
    simpl in Hmem, Hnd.
    intros H. inversion H; subst merged_df; clear H.
    exists (Coex.l_current l). split; [reflexivity|].
    split; [apply Hnd, set_NoDup|].
    intros x. rewrite Hmem, set_In. split.
    + intros [Hx|[k [c [Hin [_ [_ Hx]]]]]].
      * exists k1, c1. split; [now left | assumption].
      * now exists k, c.
    + intros [k [c [Hin Hx]]].
      destruct (String.eqb_spec k k1) as [->|Hne].
      * left. apply (dict_get_In cluster_dict k1 c Hkeys) in Hin.
        unfold cluster_dict in Hin. simpl in Hin.
        rewrite String.eqb_refl in Hin. now inversion Hin.
      * right. exists k, c. now repeat split.
Qed.

(** The scenario at threshold 0.5. *)
Lemma coex_returns_one_cluster_witness :
  exists members,
    [Coex.mkMergedRow "X" "g1 g2"]
    = [Coex.mkMergedRow "X" (join " " (sorted members))]
    /\ NoDup members
    /\ forall x, In x members
                 <-> exists k c,
                       In (k, c)
                          (build_cluster_dict
                             (select_rows scenario_clusters 25))
                       /\ In x c.
Proof.
  apply (coex_returns_one_cluster 2 scenario_clusters scenario_edges 25%Z
           (1 # 2) [Coex.mkMergedRow "X" "g1 g2"]).
  reflexivity.
Defined.

(** X9. The coexpression merger fails exactly when the slice has at least
    two clusters and the first is not connected to the second, and the
    failure is always the [UnboundLocalError] of [connected]. *)
Theorem coex_fails_iff_first_pair_unlinked :
  forall fuel df coexpression_df dr threshold e,
    Coex.merge_clusters_coex (S fuel) df coexpression_df dr threshold
    = Some (Raise e)
    <-> e = UnboundLocalError "connected"
        /\ exists k1 c1 k2 c2 rest,
             build_cluster_dict (select_rows df dr)
             = (k1, c1) :: (k2, c2) :: rest
             /\ ~ linked coexpression_df threshold (set_ c1) c2.
Proof.
  intros fuel df coexpression_df dr threshold e.
  unfold Coex.merge_clusters_coex.
  pose proof (build_cluster_dict_keys_NoDup (select_rows df dr)) as Hkeys.
  destruct (build_cluster_dict (select_rows df dr))
    as [|[k1 c1] tl] eqn:Hd.
  - simpl. split; [discriminate|].
    intros [_ [? [? [? [? [? [H _]]]]]]]. discriminate.
  - rewrite (seed_loop_first _ _ _ _ _ _ Hkeys).
    destruct tl as [|[k2 c2] rest].
    + cbn [Coex.while_loop Coex.pass Coex.l_visited mem existsb orb].
      rewrite String.eqb_refl. simpl. split; [discriminate|].
      intros [_ [? [? [? [? [? [H _]]]]]]]. discriminate.
    + assert (Hne : String.eqb k2 k1 = false).
      { apply String.eqb_neq. intros ->. unfold keys in Hkeys.
        simpl in Hkeys. inversion Hkeys; subst. apply H1. now left. }
      destruct (Coex.while_loop (S fuel) coexpression_df threshold
                  ((k1, c1) :: (k2, c2) :: rest) k1
                  (Coex.mkLoopState (set_ c1) [] None))
        as [[l|e']|] eqn:Hw.
      * split; [discriminate|].
        intros [_ [k1' [c1' [k2' [c2' [rest' [Heq Hnl]]]]]]].
        inversion Heq; subst k1' c1' k2' c2' rest'. exfalso.
        revert Hw. cbn [Coex.while_loop Coex.pass Coex.l_visited
                        Coex.l_current Coex.l_connected mem existsb orb].
        rewrite String.eqb_refl, Hne.
        cbn [Coex.current_cluster Coex.connected orb].
        rewrite (proj2 (coex_connection_test_lemma coexpression_df threshold
                          (set_ c1) c2 None) Hnl).
        discriminate.
      * pose proof (while_loop_Raise _ _ _ _ _ _ _ Hw) as He'. subst e'.
        split.
        -- intros H. inversion H; subst e. split; [reflexivity|].
           exists k1, c1, k2, c2, rest. split; [reflexivity|].
           intros Hl. revert Hw.
           cbn [Coex.while_loop Coex.pass Coex.l_visited
                Coex.l_current Coex.l_connected mem existsb orb].
           rewrite String.eqb_refl, Hne.
           cbn [Coex.current_cluster Coex.connected orb
                Coex.clusters_to_merge Coex.merge_occurred app].
           rewrite (proj1 (coex_connection_test_lemma coexpression_df
                             threshold (set_ c1) c2 None) Hl).
           destruct (pass_bound_returns coexpression_df threshold [] k1 rest
                       (Coex.mkPassState (update (set_ c1) c2) [k2] true
                                         (Some true)) eq_refl)
             as [p [Hp Hc]].
           rewrite Hp. destruct (Coex.merge_occurred p); [|discriminate].
           apply while_loop_bound_no_raise. exact Hc.
        -- intros [-> _]. reflexivity.
      * split; [discriminate|].
        intros [_ [k1' [c1' [k2' [c2' [rest' [Heq Hnl]]]]]]].
        inversion Heq; subst k1' c1' k2' c2' rest'. exfalso.
        revert Hw. cbn [Coex.while_loop Coex.pass Coex.l_visited
                        Coex.l_current Coex.l_connected mem existsb orb].
        rewrite String.eqb_refl, Hne.
        cbn [Coex.current_cluster Coex.connected orb].
        rewrite (proj2 (coex_connection_test_lemma coexpression_df threshold
                          (set_ c1) c2 None) Hnl).
        discriminate.
Qed.

(** The scenario at threshold 0.95: [X] is not connected to [Y]. *)
Lemma coex_fails_iff_first_pair_unlinked_witness :
  Coex.merge_clusters_coex 1 scenario_clusters scenario_edges 25 (19 # 20)
  = Some (Raise (UnboundLocalError "connected")).
Proof.
  apply (proj2 (coex_fails_iff_first_pair_unlinked
                  0 scenario_clusters scenario_edges 25%Z (19 # 20)
                  (UnboundLocalError "connected"))).
  split; [reflexivity|].
  exists "X", ["g1"], "Y", ["g2"], [].
  split; [reflexivity|].
  intros [g [r [_ [[<-|[]] [_ [Hle _]]]]]]. now apply Hle.
Defined.

(** ** The similarity graph for any threshold *)

(** X10. For every threshold the graph has an edge between [a] and [b]
    exactly when [a] and [b] are different labels and the matrix holds a
    value at or above the threshold for the pair in one of the two orders;
    the edge relation is symmetric and has no self-loop. *)
Theorem similarity_graph_edges :
  forall corr_df threshold a b,
    (Fingerprint.has_edge (Fingerprint.build_graph corr_df threshold) a b
     = true
     <-> a <> b
         /\ exists v, (threshold <= v)%Q
                      /\ (entry corr_df a b v \/ entry corr_df b a v))
    /\ Fingerprint.has_edge (Fingerprint.build_graph corr_df threshold) a b
       = Fingerprint.has_edge (Fingerprint.build_graph corr_df threshold) b a
    /\ Fingerprint.has_edge (Fingerprint.build_graph corr_df threshold) a a
       = false.
Proof.
  intros corr_df threshold.
  assert (Hiff : forall a b,
    Fingerprint.has_edge (Fingerprint.build_graph corr_df threshold) a b
    = true
    <-> a <> b
        /\ exists v, (threshold <= v)%Q
                     /\ (entry corr_df a b v \/ entry corr_df b a v)).
  { intros a b. rewrite has_edge_build_graph. split.
    - intros [i [j [v [He [Hne [Hle Hs]]]]]].
      apply Qle_bool_iff in Hle. apply same_edge_spec in Hs.
      destruct Hs as [[-> ->]|[-> ->]].
      + split; [assumption|]. exists v. split; [assumption | now left].
      + split; [congruence|]. exists v. split; [assumption | now right].
    - intros [Hne [v [Hv [He|He]]]].
      + exists a, b, v. repeat split; try assumption.
        * now apply Qle_bool_iff.
        * apply same_edge_spec. now left.
      + exists b, a, v. repeat split; try assumption.
        * congruence.
        * now apply Qle_bool_iff.
        * apply same_edge_spec. now right. }
  intros a b. split; [apply Hiff|]. split.
  - destruct (Fingerprint.has_edge _ a b) eqn:E1,
             (Fingerprint.has_edge _ b a) eqn:E2; try reflexivity.
    + apply Hiff in E1. destruct E1 as [Hne [v [Hv Hor]]].
      assert (Fingerprint.has_edge
                (Fingerprint.build_graph corr_df threshold) b a = true).
      { apply Hiff. split; [congruence|]. exists v. tauto. }
      congruence.
    + apply Hiff in E2. destruct E2 as [Hne [v [Hv Hor]]].
      assert (Fingerprint.has_edge
                (Fingerprint.build_graph corr_df threshold) a b = true).
      { apply Hiff. split; [congruence|]. exists v. tauto. }
      congruence.
  - destruct (Fingerprint.has_edge _ a a) eqn:E; [|reflexivity].
    apply Hiff in E. destruct E as [Hne _]. now destruct Hne.
Qed.

(** X11. Raising the threshold only removes edges: an edge of the graph
    built at the higher threshold is an edge of the graph built at the
    lower one. *)
Theorem similarity_graph_monotone :
  forall corr_df low high a b,
    (low <= high)%Q ->
    Fingerprint.has_edge (Fingerprint.build_graph corr_df high) a b = true ->
    Fingerprint.has_edge (Fingerprint.build_graph corr_df low) a b = true.
Proof.
  intros corr_df low high a b Hle H.
  apply has_edge_build_graph in H. apply has_edge_build_graph.
  destruct H as [i [j [v [He [Hne [Hv Hs]]]]]].
  exists i, j, v. repeat split; try assumption.
  apply Qle_bool_iff. apply Qle_bool_iff in Hv.
  now apply (Qle_trans _ high).
Qed.

(** The perfectly correlated pair keeps its edge from threshold 1.0 down
    to 0.5. *)
Lemma similarity_graph_monotone_witness :
  Fingerprint.has_edge (Fingerprint.build_graph perfect_pair (1 # 2)) "A" "B"
  = true.
Proof.
  apply (similarity_graph_monotone perfect_pair (1 # 2) 1 "A" "B").
  - discriminate.
  - reflexivity.
Defined.

Lemma add_node_nodes (G : Fingerprint.Graph) (i x : string) :
  In x (Fingerprint.nodes (Fingerprint.add_node G i))
  <-> In x (Fingerprint.nodes G) \/ x = i.
Proof.
  unfold Fingerprint.add_node.
  destruct (mem i (Fingerprint.nodes G)) eqn:E; simpl.
  - apply mem_true_iff in E. split; [now left|].
    intros [H| ->]; assumption.
  - rewrite in_app_iff. simpl. intuition.
Qed.

Lemma add_node_NoDup (G : Fingerprint.Graph) (i : string) :
  NoDup (Fingerprint.nodes G) ->
  NoDup (Fingerprint.nodes (Fingerprint.add_node G i)).
Proof.
  intros H. unfold Fingerprint.add_node.
  destruct (mem i (Fingerprint.nodes G)) eqn:E; simpl; [assumption|].
  apply mem_false_iff in E. apply NoDup_app; [assumption| |].
  - constructor; [intros []|constructor].
  - intros a Ha [<-|[]]. contradiction.
Qed.

Lemma add_edge_nodes (G : Fingerprint.Graph) (i j x : string) (v : Q) :
  In x (Fingerprint.nodes (Fingerprint.add_edge G i j v))
  <-> In x (Fingerprint.nodes G) \/ x = i \/ x = j.
Proof.
  unfold Fingerprint.add_edge.
  destruct (existsb _ _); simpl; rewrite !add_node_nodes; tauto.
Qed.

Lemma add_edge_NoDup (G : Fingerprint.Graph) (i j : string) (v : Q) :
  NoDup (Fingerprint.nodes G) ->
  NoDup (Fingerprint.nodes (Fingerprint.add_edge G i j v)).
Proof.
  intros H. unfold Fingerprint.add_edge.
  destruct (existsb _ _); simpl; now apply add_node_NoDup, add_node_NoDup.
Qed.

Lemma add_row_edges_nodes (threshold : Q) (i : string)
    (row : list (string * Q)) :
  forall G x,
    In i (Fingerprint.nodes G) ->
    (In x (Fingerprint.nodes (Fingerprint.add_row_edges threshold i row G))
     <-> In x (Fingerprint.nodes G)
         \/ exists v, In (x, v) row /\ i <> x
                      /\ Qle_bool threshold v = true)
    /\ (NoDup (Fingerprint.nodes G) ->
        NoDup (Fingerprint.nodes
                 (Fingerprint.add_row_edges threshold i row G))).
Proof.
  unfold Fingerprint.add_row_edges.
  induction row as [|[j v] row IH]; intros G x Hi; simpl.
  - split; [|auto]. split; [now left|]. intros [H|[v [[] _]]]. exact H.
  - destruct (negb (String.eqb i j) && Qle_bool threshold v) eqn:Hc.
    + apply andb_true_iff in Hc. destruct Hc as [Hne Hle].
      apply negb_true_iff, String.eqb_neq in Hne.
      assert (Hi' : In i (Fingerprint.nodes (Fingerprint.add_edge G i j v)))
        by (apply add_edge_nodes; now left).
      destruct (IH (Fingerprint.add_edge G i j v) x Hi') as [H1 H2].
      split.
      * rewrite H1, add_edge_nodes. split.
        -- intros [[H|[->| ->]]|[v' [Hin Hrest]]].
           ++ now left.
           ++ now left.
           ++ right. exists v. split; [now left|]. now split.
           ++ right. exists v'. split; [now right | assumption].
        -- intros [H|[v' [[Heq|Hin] [Hn Hl]]]].
           ++ left. now left.
           ++ inversion Heq; subst. left. right. now right.
           ++ right. exists v'. now repeat split.
      * intros Hnd. apply H2. now apply add_edge_NoDup.
    + destruct (IH G x Hi) as [H1 H2]. split; [|assumption].
      rewrite H1. split.
      * intros [H|[v' [Hin Hrest]]]; [now left|].
        right. exists v'. split; [now right | assumption].
      * intros [H|[v' [[Heq|Hin] [Hn Hl]]]]; [now left| |].
        -- inversion Heq; subst. apply String.eqb_neq in Hn.
           rewrite Hn, Hl in Hc. discriminate.
        -- right. exists v'. now repeat split.
Qed.

(** X12. The nodes of the graph are the index labels of the matrix
    together with the column labels of the off-diagonal entries at or
    above the threshold that [add_edge] brought in; no node occurs
    twice. *)
Theorem similarity_graph_nodes :
  forall corr_df threshold,
    NoDup (Fingerprint.nodes (Fingerprint.build_graph corr_df threshold))
    /\ forall x,
         In x (Fingerprint.nodes (Fingerprint.build_graph corr_df threshold))
         <-> In x (map fst corr_df)
             \/ exists i v, entry corr_df i x v /\ i <> x
                            /\ (threshold <= v)%Q.
Proof.
  intros corr_df threshold. unfold Fingerprint.build_graph.
  assert (H : forall G,
    let G' := fold_left
                (fun G irow =>
                   let '(i, row) := irow in
                   Fingerprint.add_row_edges threshold i row
                                             (Fingerprint.add_node G i))
                corr_df G in
    (NoDup (Fingerprint.nodes G) -> NoDup (Fingerprint.nodes G'))
    /\ forall x,
         In x (Fingerprint.nodes G')
         <-> In x (Fingerprint.nodes G) \/ In x (map fst corr_df)
             \/ exists i v, entry corr_df i x v /\ i <> x
                            /\ (threshold <= v)%Q).
  { induction corr_df as [|[i row] corr_df IH]; intros G; simpl.
    - split; [auto|]. intros x. split; [now left|].
      intros [H|[[]|[i [v [[row [[] _]] _]]]]]. exact H.
    - assert (Hi : In i (Fingerprint.nodes (Fingerprint.add_node G i)))
        by (apply add_node_nodes; now right).
      destruct (IH (Fingerprint.add_row_edges threshold i row
                      (Fingerprint.add_node G i))) as [IH1 IH2].
      split.
      + intros Hnd. apply IH1.
        apply (add_row_edges_nodes threshold i row _ i Hi).
        now apply add_node_NoDup.
      + intros x. rewrite IH2.
        rewrite (proj1 (add_row_edges_nodes threshold i row _ x Hi)).
        rewrite add_node_nodes. split.
        * intros [[[H| ->]|[v [Hin [Hne Hle]]]]|[H|[i' [v [[r [Hr Hv]] Hrest]]]]].
          -- now left.
          -- right. left. now left.
          -- right. right. exists i, v. split; [|split; [assumption|]].
             ++ exists row. split; [now left | assumption].
             ++ now apply Qle_bool_iff.
          -- right. left. now right.
          -- right. right. exists i', v. split; [|assumption].
             exists r. split; [now right | assumption].
        * intros [H|[[<-|H]|[i' [v [[r [[Heq|Hr] Hv]] [Hne Hle]]]]]].
          -- left. left. now left.
          -- left. left. now right.
          -- right. now left.
          -- inversion Heq; subst i' r. left. right. exists v.
             split; [assumption|]. split; [assumption|].
             now apply Qle_bool_iff.
          -- right. right. exists i', v. split; [|now split].
             exists r. split; assumption. }
  destruct (H Fingerprint.empty_graph) as [H1 H2]. split.
  - apply H1. constructor.
  - intros x. rewrite H2. simpl. tauto.
Qed.

(** ** The split into two lists loses nothing *)

Lemma filter_split_Permutation {A : Type} (f : A -> bool) (l : list A) :
  Permutation (filter f l ++ filter (fun x => negb (f x)) l) l.
Proof.
  induction l as [|a l IH]; simpl; [constructor|].
  destruct (f a); simpl.
  - now constructor.
  - apply Permutation_sym, Permutation_cons_app. now apply Permutation_sym.
Qed.

(** X13. Splitting a merged cluster only rearranges it: in the overlap
    merger the metabolites followed by the genes are a permutation of the
    merged set, and in [split_and_match] the matching followed by the
    unmatching elements are a permutation of the elements of the row, so
    no element is dropped, added or counted twice. *)
Theorem split_is_permutation :
  (forall metabolite_features cluster,
      Permutation (Overlap.metabolites_of metabolite_features cluster
                   ++ Overlap.genes_of metabolite_features cluster)
                  cluster)
  /\ (forall row metabolite_df column matching unmatching,
         split_and_match row metabolite_df column
         = Ok (matching, unmatching) ->
         Permutation (matching ++ unmatching)
                     (split_on "," (Merged_Members row))).
Proof.
  split.
  - intros mf cluster. apply filter_split_Permutation.
  - intros row metabolite_df column matching unmatching H.
    unfold split_and_match, row_column_split in H.
    destruct (String.eqb column "Merged Members");
      [|destruct (String.eqb column "Cluster"); discriminate].
    simpl in H. inversion H; subst matching unmatching; clear H.
    unfold unmatching_of, matching_of.
    set (l := split_on "," (Merged_Members row)).
    set (f := fun metabolite => mem metabolite (map feature metabolite_df)).
    assert (Heq : filter (fun metabolite => negb (mem metabolite (filter f l)))
                         l
                  = filter (fun x => negb (f x)) l).
    { apply filter_ext_in. intros x Hx. rewrite mem_filter.
      assert (Hm : mem x l = true) by now apply mem_true_iff.
      now rewrite Hm. }
    rewrite Heq. apply filter_split_Permutation.
Qed.

(** A row ["m1,g1,m1"] with the metabolite [m1]. *)
Lemma split_is_permutation_witness :
  Permutation (["m1"; "m1"] ++ ["g1"]) (split_on "," "m1,g1,m1").
Proof.
  apply (proj2 split_is_permutation
           (mkFpRow ["A"] "m1,g1,m1") [mkFeatureRow "m1" []]
           "Merged Members" ["m1"; "m1"] ["g1"]).
  reflexivity.
Defined.

(** ** fill_extracted_rows: when it fails and what it returns *)

Lemma extract_loop_cases (transcripts_df metabolite_df : list FeatureRow) :
  forall elements_list acc,
    ((forall element, In element elements_list ->
        mem element (map feature transcripts_df)
        || mem element (map feature metabolite_df) = true)
     /\ extract_loop elements_list transcripts_df metabolite_df acc
        = Ok (acc ++ flat_map
                       (fun element =>
                          if mem element (map feature transcripts_df)
                          then rows_with_feature transcripts_df element
                          else rows_with_feature metabolite_df element)
                       elements_list))
    \/ ((exists element, In element elements_list
                         /\ mem element (map feature transcripts_df) = false
                         /\ mem element (map feature metabolite_df) = false)
        /\ extract_loop elements_list transcripts_df metabolite_df acc
           = Raise (SystemExit "element is not found in either data frame!")).
Proof.
  induction elements_list as [|element rest IH]; intros acc.
  - left. split; [intros e []|]. simpl. now rewrite app_nil_r.
  - simpl.
    destruct (mem element (map feature transcripts_df)) eqn:Ht;
      [|destruct (mem element (map feature metabolite_df)) eqn:Hm].
    + destruct (IH (acc ++ rows_with_feature transcripts_df element))
        as [[Hall Heq]|[[e [He Hrest]] Heq]]; rewrite Heq.
      * left. split; [|now rewrite <- app_assoc].
        intros e [<-|He]; [now rewrite Ht | now apply Hall].
      * right. split; [|reflexivity]. exists e. split; [now right|assumption].
    + destruct (IH (acc ++ rows_with_feature metabolite_df element))
        as [[Hall Heq]|[[e [He Hrest]] Heq]]; rewrite Heq.
      * left. split; [|now rewrite <- app_assoc].
        intros e [<-|He]; [now rewrite Ht, Hm | now apply Hall].
      * right. split; [|reflexivity]. exists e. split; [now right|assumption].
    + right. split; [|reflexivity]. exists element.
      split; [now left | now split].
Qed.

(** X14. [fill_extracted_rows] ends the run exactly when some member of
    the cluster is a feature of neither table, and then always with the
    same message; otherwise it returns. *)
Theorem fill_extracted_rows_fails_iff :
  forall cluster_id elements_str transcripts_df metabolite_df e,
    fill_extracted_rows (cluster_id, elements_str) transcripts_df metabolite_df
    = Raise e
    <-> e = SystemExit "element is not found in either data frame!"
        /\ exists element,
             In element (split_ws elements_str)
             /\ mem element (map feature transcripts_df) = false
             /\ mem element (map feature metabolite_df) = false.
Proof.
  intros cluster_id elements_str transcripts_df metabolite_df e.
  unfold fill_extracted_rows. cbn [fst snd].
  destruct (extract_loop_cases transcripts_df metabolite_df
              (split_ws elements_str) [])
    as [[Hall Heq]|[Hex Heq]]; rewrite Heq; simpl.
  - split; [discriminate|].
    intros [_ [element [Hin [Ht Hm]]]].
    specialize (Hall element Hin). rewrite Ht, Hm in Hall. discriminate.
  - split.
    + intros H. inversion H. now split.
    + intros [-> _]. reflexivity.
Qed.

(** X15. When [fill_extracted_rows] returns, it hands back the cluster ID
    it was given; every returned row is a row of one of the two tables
    whose feature is a member of the cluster, and every member of the
    cluster has at least one row in the result. *)
Theorem fill_extracted_rows_returns_member_rows :
  forall cluster_id elements_str transcripts_df metabolite_df id rows,
    fill_extracted_rows (cluster_id, elements_str) transcripts_df metabolite_df
    = Ok (id, rows) ->
    id = cluster_id
    /\ (forall r, In r rows ->
                  In (feature r) (split_ws elements_str)
                  /\ (In r transcripts_df \/ In r metabolite_df))
    /\ (forall element, In element (split_ws elements_str) ->
                        exists r, In r rows /\ feature r = element).
Proof.
  intros cluster_id elements_str transcripts_df metabolite_df id rows.
  unfold fill_extracted_rows. cbn [fst snd].
  destruct (extract_loop_cases transcripts_df metabolite_df
              (split_ws elements_str) [])
    as [[Hall Heq]|[Hex Heq]]; rewrite Heq; simpl; [|discriminate].
  intros H. inversion H; subst id rows; clear H.
  split; [reflexivity|]. split.
  - intros r Hr. apply in_flat_map in Hr. destruct Hr as [element [He Hr]].
    destruct (mem element (map feature transcripts_df));
      apply filter_In in Hr; destruct Hr as [Hin Hf];
      apply String.eqb_eq in Hf; subst element; tauto.
  - intros element He. specialize (Hall element He).
    assert (Hrow : forall df, mem element (map feature df) = true ->
                     exists r, In r (rows_with_feature df element)
                               /\ feature r = element).
    { intros df Hm. apply mem_true_iff, in_map_iff in Hm.
      destruct Hm as [r [Hf Hin]]. exists r. split; [|assumption].
      apply filter_In. split; [assumption|]. now apply String.eqb_eq. }
    destruct (mem element (map feature transcripts_df)) eqn:Ht.
    + destruct (Hrow transcripts_df Ht) as [r [Hr Hf]].
      exists r. split; [|assumption]. apply in_flat_map.
      exists element. split; [assumption|]. now rewrite Ht.
    + simpl in Hall. destruct (Hrow metabolite_df Hall) as [r [Hr Hf]].
      exists r. split; [|assumption]. apply in_flat_map.
      exists element. split; [assumption|]. now rewrite Ht.
Qed.

(** A cluster ["g1 m1"] with one row per member. *)
Lemma fill_extracted_rows_returns_member_rows_witness :
  "cluster001" = "cluster001"
  /\ (forall r, In r [mkFeatureRow "g1" [1 # 1]; mkFeatureRow "m1" [3 # 1]] ->
                In (feature r) (split_ws "g1 m1")
                /\ (In r [mkFeatureRow "g1" [1 # 1]]
                    \/ In r [mkFeatureRow "m1" [3 # 1]]))
  /\ (forall element, In element (split_ws "g1 m1") ->
                      exists r,
                        In r [mkFeatureRow "g1" [1 # 1];
                              mkFeatureRow "m1" [3 # 1]]
                        /\ feature r = element).
Proof.
  apply (fill_extracted_rows_returns_member_rows
           "cluster001" "g1 m1"
           [mkFeatureRow "g1" [1 # 1]] [mkFeatureRow "m1" [3 # 1]]
           "cluster001"
           [mkFeatureRow "g1" [1 # 1]; mkFeatureRow "m1" [3 # 1]]).
  reflexivity.
Defined.

(** ** annotate_clusters: unknown genes are skipped *)

Lemma annotate_loop_In (annotation_df : list AnnotationRow) :
  forall elements_list acc r,
    In r (annotate_loop elements_list annotation_df acc)
    <-> In r acc \/ (In r annotation_df /\ In (gene r) elements_list).
Proof.
  induction elements_list as [|element rest IH]; intros acc r; simpl.
  - tauto.
  - assert (Hf : In r (filter (fun r0 => String.eqb (gene r0) element)
                              annotation_df)
                 <-> In r annotation_df /\ element = gene r).
    { rewrite filter_In, String.eqb_eq. intuition. }
    destruct (mem element (map gene annotation_df)) eqn:Hm.
    + rewrite IH, in_app_iff, Hf. tauto.
    + rewrite IH. split; [tauto|].
      intros [H|[H1 [H2|H2]]]; [tauto| |tauto].
      exfalso. apply mem_false_iff in Hm. apply Hm. subst element.
      now apply in_map.
Qed.

(** X16. [annotate_clusters] writes, under the name of the cluster ID with
    the suffix [.csv] in the output folder, exactly the annotation rows
    whose gene is an element of the row's gene column; an element without
    annotation is skipped and never makes the call fail. *)
Theorem annotate_clusters_writes_known_genes :
  forall annotation_df row gene_col_index output_folder cluster_id
         elements_str,
    nth_error row 0 = Some cluster_id ->
    nth_error row gene_col_index = Some elements_str ->
    exists rows,
      annotate_clusters annotation_df row gene_col_index output_folder
      = Ok (output_folder, (cluster_id ++ ".csv")%string, rows)
      /\ forall r, In r rows
                   <-> In r annotation_df
                       /\ In (gene r) (split_ws elements_str).
Proof.
  intros annotation_df row gene_col_index output_folder cluster_id
         elements_str H0 H1.
  unfold annotate_clusters, row_at. rewrite H0, H1. simpl.
  eexists. split; [reflexivity|].
  intros r. rewrite annotate_loop_In. simpl. tauto.
Qed.

(** The call of [main] for a row [(ID, Members)], gene column 1. *)
Lemma annotate_clusters_writes_known_genes_witness :
  exists rows,
    annotate_clusters [mkAnnotationRow "g1" "kinase"]
                      ["cluster001"; "g1 g2"] 1 "FC_annotation"
    = Ok ("FC_annotation", "cluster001.csv", rows)
    /\ forall r, In r rows
                 <-> In r [mkAnnotationRow "g1" "kinase"]
                     /\ In (gene r) (split_ws "g1 g2").
Proof.
  apply (annotate_clusters_writes_known_genes
           [mkAnnotationRow "g1" "kinase"] ["cluster001"; "g1 g2"] 1
           "FC_annotation" "cluster001" "g1 g2"); reflexivity.
Defined.

(** ** The fingerprint merger: cluster IDs through join and split *)

Lemma split_on_no_sep (c : ascii) (x : string) :
  has_char c x = false -> split_on c x = [x].
Proof.
  induction x as [|a x IH]; simpl; [reflexivity|].
  intros H. apply orb_false_iff in H. destruct H as [Ha Hx].
  rewrite Ha, (IH Hx). reflexivity.
Qed.

Lemma split_on_append (c : ascii) (x rest : string) :
  has_char c x = false ->
  split_on c (x ++ String c rest) = x :: split_on c rest.
Proof.
  induction x as [|a x IH]; simpl.
  - intros _. now rewrite Ascii.eqb_refl.
  - intros H. apply orb_false_iff in H. destruct H as [Ha Hx].
    rewrite Ha, (IH Hx). reflexivity.
Qed.

(** X17. Lines 260 and 265 join the IDs of a cluster with [,] and split the
    string again: a non-empty list of IDs none of which contains a comma
    comes back unchanged. *)
Theorem cluster_ids_survive_join_split :
  forall names,
    names <> [] ->
    (forall name, In name names -> has_char "," name = false) ->
    split_on "," (join "," names) = names.
Proof.
  induction names as [|x names IH]; intros Hne Hall; [contradiction|].
  destruct names as [|y names].
  - simpl. apply split_on_no_sep. apply Hall. now left.
  - change (join "," (x :: y :: names))
      with (x ++ String "," (join "," (y :: names)))%string.
    rewrite split_on_append by (apply Hall; now left).
    rewrite IH; [reflexivity | discriminate |].
    intros name Hin. apply Hall. now right.
Qed.

(** Two IDs of the form that [main] builds. *)
Lemma cluster_ids_survive_join_split_witness :
  split_on "," (join "," ["cluster001_DR_25_1"; "cluster002_DR_25_2"])
  = ["cluster001_DR_25_1"; "cluster002_DR_25_2"].
Proof.
  apply (cluster_ids_survive_join_split
           ["cluster001_DR_25_1"; "cluster002_DR_25_2"]).
  - discriminate.
  - intros name [<-|[<-|[]]]; reflexivity.
Defined.

(** ** main: the cluster IDs are distinct *)

Lemma str_of_nat_NilEmpty (n : nat) :
  str_of_nat n = NilEmpty.string_of_uint (Nat.to_uint n).
Proof.
  unfold str_of_nat, NilZero.string_of_uint.
  pose proof (to_uint_nonnil n) as H.
  destruct (Nat.to_uint n); [contradiction | reflexivity ..].
Qed.

Lemma zeros_str_lead (k : nat) (d : Decimal.uint) :
  (zeros_str k ++ NilEmpty.string_of_uint d)%string
  = NilEmpty.string_of_uint (lead_zeros k d).
Proof.
  induction k as [|k IH]; simpl; [reflexivity|]. now rewrite IH.
Qed.

Lemma of_uint_lead_zeros (k : nat) (d : Decimal.uint) :
  Nat.of_uint (lead_zeros k d) = Nat.of_uint d.
Proof.
  induction k as [|k IH]; simpl; [reflexivity|]. exact IH.
Qed.

Lemma format_03d_inj (a b : nat) : format_03d a = format_03d b -> a = b.
Proof.
  unfold format_03d. rewrite !str_of_nat_NilEmpty, !zeros_str_lead.
  intros H.
  assert (Hu : Some (lead_zeros
                       (3 - String.length
                              (NilEmpty.string_of_uint (Nat.to_uint a)))
                       (Nat.to_uint a))
               = Some (lead_zeros
                         (3 - String.length
                                (NilEmpty.string_of_uint (Nat.to_uint b)))
                         (Nat.to_uint b))).
  { rewrite <- !NilEmpty.usu. now rewrite H. }
  inversion Hu as [Hl].
  apply (f_equal Nat.of_uint) in Hl.
  rewrite !of_uint_lead_zeros, !DecimalNat.Unsigned.of_to in Hl.
  exact Hl.
Qed.

Lemma all_digits_app (s t : string) :
  all_digits (s ++ t) = all_digits s && all_digits t.
Proof.
  induction s as [|c s IH]; simpl; [reflexivity|].
  now rewrite IH, andb_assoc.
Qed.

Lemma all_digits_string_of_uint (d : Decimal.uint) :
  all_digits (NilEmpty.string_of_uint d) = true.
Proof. induction d; simpl; auto. Qed.

Lemma all_digits_zeros (k : nat) : all_digits (zeros_str k) = true.
Proof. induction k as [|k IH]; simpl; auto. Qed.

Lemma format_03d_digits (n : nat) : all_digits (format_03d n) = true.
Proof.
  unfold format_03d. rewrite all_digits_app, all_digits_zeros.
  rewrite str_of_nat_NilEmpty. apply all_digits_string_of_uint.
Qed.

Lemma digits_then_underscore (d1 d2 r1 r2 : string) :
  all_digits d1 = true -> all_digits d2 = true ->
  (d1 ++ String "_" r1)%string = (d2 ++ String "_" r2)%string ->
  d1 = d2.
Proof.
  revert d2. induction d1 as [|c d1 IH]; intros [|c2 d2]; simpl;
    intros H1 H2 Heq.
  - reflexivity.
  - inversion Heq; subst c2. discriminate H2.
  - inversion Heq; subst c. discriminate H1.
  - apply andb_true_iff in H1. apply andb_true_iff in H2.
    inversion Heq; subst c2. f_equal. apply (IH d2); tauto.
Qed.

Lemma assign_ids_from_numbers :
  forall frame i r id,
    In r (assign_ids_from i frame) -> fID r = Some id ->
    exists n rest,
      i <= n
      /\ id = ("cluster" ++ (format_03d n ++ String "_" rest))%string.
Proof.
  induction frame as [|row frame IH]; intros i r id; simpl; [intros []|].
  intros [<-|Hin] Hid.
  - simpl in Hid. destruct (rSource row) as [source|]; [|discriminate].
    inversion Hid. exists i, (source ++ "_" ++ rCluster row)%string.
    split; [lia | reflexivity].
  - destruct (IH (S i) r id Hin Hid) as [n [rest [Hn Heq]]].
    exists n, rest. split; [lia | assumption].
Qed.

Lemma string_ids_In (frame : list FrameRow) (id : string) :
  In id (string_ids frame) <-> exists r, In r frame /\ fID r = Some id.
Proof.
  unfold string_ids. rewrite in_flat_map. split.
  - intros [r [Hr Hid]]. exists r. split; [assumption|].
    destruct (fID r) as [id'|]; [|destruct Hid].
    destruct Hid as [->|[]]. reflexivity.
  - intros [r [Hr Hid]]. exists r. split; [assumption|].
    rewrite Hid. now left.
Qed.

Lemma assign_ids_from_NoDup (frame : list RawRow) :
  forall i, NoDup (string_ids (assign_ids_from i frame)).
Proof.
  induction frame as [|row frame IH]; intros i; [constructor|].
  unfold string_ids. cbn [assign_ids_from flat_map fID].
  destruct (rSource row) as [source|]; cbn [app]; [|apply IH].
  constructor; [|apply IH].
  intros Hin. apply (string_ids_In (assign_ids_from (S i) frame)) in Hin. destruct Hin as [r [Hr Hid]].
  destruct (assign_ids_from_numbers frame (S i) r _ Hr Hid)
    as [n [rest [Hn Heq]]].
  cbn [append] in Heq. inversion Heq as [Heq'].
  apply digits_then_underscore in Heq'; try apply format_03d_digits.
  apply format_03d_inj in Heq'. lia.
Qed.

Lemma assign_ids_from_columns (frame : list RawRow) :
  forall i,
    map fMembers (assign_ids_from i frame) = map rMembers frame
    /\ map fSource (assign_ids_from i frame) = map rSource frame.
Proof.
  induction frame as [|row frame IH]; intros i; [now split|].
  destruct (IH (S i)) as [H1 H2].
  cbn [assign_ids_from map fMembers fSource]. now rewrite H1, H2.
Qed.

Lemma assign_ids_from_nan (frame : list RawRow) :
  forall i r, In r (assign_ids_from i frame) ->
              (fID r = None <-> fSource r = None).
Proof.
  induction frame as [|row frame IH]; intros i r; simpl; [intros []|].
  intros [<-|Hin]; [|now apply (IH (S i))].
  simpl. destruct (rSource row); split; intros H; try discriminate;
    reflexivity.
Qed.

Lemma tagged_rows_ids (frame : list FrameRow) :
  forall id, In id (map ID (tagged_rows frame)) -> In id (string_ids frame).
Proof.
  intros id Hin. apply in_map_iff in Hin. destruct Hin as [c [Hid Hc]].
  unfold tagged_rows in Hc. apply in_flat_map in Hc.
  destruct Hc as [r [Hr Hc]]. apply string_ids_In. exists r.
  split; [assumption|].
  destruct (fID r) as [id'|]; [|destruct Hc].
  destruct (fSource r) as [source|]; [|destruct Hc].
  destruct Hc as [<-|[]]. simpl in Hid. now subst.
Qed.

Lemma tagged_rows_NoDup (frame : list FrameRow) :
  NoDup (string_ids frame) -> NoDup (map ID (tagged_rows frame)).
Proof.
  induction frame as [|r frame IH]; intros Hnd; [constructor|].
  unfold string_ids, tagged_rows in *. cbn [flat_map] in *.
  destruct (fID r) as [id|]; [|now apply IH].
  cbn [app] in Hnd. inversion Hnd as [|x l Hnotin Hnd']; subst.
  destruct (fSource r) as [source|]; [|now apply IH].
  cbn [app map ID]. constructor; [|now apply IH].
  intros Hin. apply Hnotin. now apply tagged_rows_ids.
Qed.

Lemma select_rows_NoDup (df : list ClusterRow) (dr : Z) :
  NoDup (map ID df) -> NoDup (map ID (select_rows df dr)).
Proof.
  intros Hnd. unfold select_rows.
  induction df as [|r l IH]; simpl; [constructor|].
  inversion Hnd; subst.
  destruct (String.eqb (Source r) _); simpl; [|now apply IH].
  constructor; [|now apply IH].
  intros Hin. apply H1. apply in_map_iff in Hin.
  destruct Hin as [r' [Hid Hr']]. apply filter_In in Hr'.
  apply in_map_iff. exists r'. tauto.
Qed.

(** X18. The IDs that [main] builds: a row has an ID exactly when it has
    a [Source], that is, when the name of its table holds a decay rate or
    the table brought the value itself; the other rows get NaN. The IDs
    that are strings are pairwise distinct, whatever the tables hold: the
    running number in [cluster{i:03d}] ends at the first underscore and
    differs from row to row. Members and sources are kept, so every
    decay-rate slice handed to a merger has distinct IDs. When no table
    brings a [Source], line 467 raises [KeyError]. *)
Theorem main_cluster_ids_distinct :
  forall first others,
    (cluster_frame first others = Raise (KeyError "Source")
     <-> forall df, In df (first :: others) ->
                    tag df = None /\ has_source df = false)
    /\ forall frame,
         cluster_frame first others = Ok frame ->
         (forall row, In row frame ->
                      (fID row = None <-> fSource row = None))
         /\ NoDup (string_ids frame)
         /\ map fMembers frame
            = map rMembers (concat_tables (first :: others))
         /\ map fSource frame
            = map rSource (concat_tables (first :: others))
         /\ forall dr, NoDup (map ID (select_rows (tagged_rows frame) dr)).
Proof.
  intros first others. unfold cluster_frame. cbv zeta.
  destruct (has_source_column (first :: others)) eqn:Hcol.
  - split.
    + split; [discriminate|]. intros Hnone. exfalso.
      unfold has_source_column in Hcol. apply existsb_exists in Hcol.
      destruct Hcol as [df [Hdf Hsrc]].
      destruct (Hnone df Hdf) as [Ht Hs]. rewrite Ht, Hs in Hsrc.
      discriminate.
    + intros frame Hframe. inversion Hframe; subst frame; clear Hframe.
      unfold assign_ids. split; [apply assign_ids_from_nan|].
      split; [apply assign_ids_from_NoDup|].
      split; [apply assign_ids_from_columns|].
      split; [apply assign_ids_from_columns|].
      intros dr. apply select_rows_NoDup, tagged_rows_NoDup,
                   assign_ids_from_NoDup.
  - split; [|discriminate].
    split; [|reflexivity]. intros _ df Hdf.
    unfold has_source_column in Hcol.
    assert (H : match tag df with Some _ => true | None => has_source df end
                = false).
    { destruct (match tag df with Some _ => true | None => has_source df end)
        eqn:E; [|reflexivity].
      assert (Hex : existsb (fun df => match tag df with
                                       | Some _ => true
                                       | None => has_source df
                                       end) (first :: others) = true)
        by (apply existsb_exists; exists df; now split).
      rewrite Hex in Hcol. discriminate. }
    destruct (tag df); [discriminate | now split].
Qed.

(** Three tables, the second without a decay rate in its name: its two
    rows get no ID. *)
Lemma main_cluster_ids_distinct_witness :
  (forall row,
      In row [mkFrameRow (Some "cluster001_DR_25_1") "m1 g1" (Some "DR_25");
              mkFrameRow None "m2 g2" None;
              mkFrameRow None "m3 g3" None;
              mkFrameRow (Some "cluster004_DR_5_1") "m1 g4" (Some "DR_5")] ->
      (fID row = None <-> fSource row = None))
  /\ NoDup (string_ids
              [mkFrameRow (Some "cluster001_DR_25_1") "m1 g1" (Some "DR_25");
               mkFrameRow None "m2 g2" None;
               mkFrameRow None "m3 g3" None;
               mkFrameRow (Some "cluster004_DR_5_1") "m1 g4" (Some "DR_5")]).
Proof.
  destruct (proj2 (main_cluster_ids_distinct table_DR_25 other_tables)
              [mkFrameRow (Some "cluster001_DR_25_1") "m1 g1" (Some "DR_25");
               mkFrameRow None "m2 g2" None;
               mkFrameRow None "m3 g3" None;
               mkFrameRow (Some "cluster004_DR_5_1") "m1 g4" (Some "DR_5")]
              eq_refl) as [H1 [H2 _]].
  split; assumption.
Defined.

(** ** main: what a run exports *)

(** X19. A run of the merge step exports at most one table, and none
    without [-mc]. It never exports a fingerprint table, an overlap table
    only for the method [overlap], and a coexpression table only for the
    method [coexpression] with the evidence flag set, the evidence source
    [coex] and a quantitation matrix given. *)
Theorem main_merge_exports :
  forall frame metabolite_df targeted_metabolites coexpression_df
         fingerprinting_arm fuel o exports,
    Main.main_merge frame metabolite_df targeted_metabolites coexpression_df
                    fingerprinting_arm fuel o
    = Some (Ok exports) ->
    List.length exports <= 1
    /\ (Main.merge_clusters o = false -> exports = [])
    /\ (forall name rows, ~ In (Main.ExportFingerprint name rows) exports)
    /\ (forall name rows, In (Main.ExportOverlap name rows) exports ->
                          Main.merge_method o = "overlap")
    /\ (forall name rows, In (Main.ExportCoex name rows) exports ->
                          Main.merge_method o = "coexpression"
                          /\ Main.evidence o = true
                          /\ Main.evidence_source o = "coex"
                          /\ Main.quantitation_matrix o <> "").
Proof.
  intros frame metabolite_df targeted_metabolites coexpression_df
         fingerprinting_arm fuel o exports.
  unfold Main.main_merge, Main.dispatch.
  destruct (Main.merge_clusters o) eqn:Hmc.
  - destruct (String.eqb_spec (Main.merge_method o) "overlap") as [Hov|Hov].
    + intros H. inversion H; subst exports; clear H. simpl.
      split; [lia|]. split; [discriminate|]. split; [|split].
      * intros name rows [H|[]]. discriminate.
      * intros. assumption.
      * intros name rows [H|[]]. discriminate.
    + simpl.
      destruct (String.eqb_spec (Main.merge_method o) "coexpression")
        as [Hco|Hco]; [|discriminate].
      unfold Main.coexpression_arm.
      destruct (Main.evidence o) eqn:Hev; [|discriminate].
      destruct (String.eqb_spec (Main.evidence_source o) "coex")
        as [Hes|Hes]; [|discriminate].
      unfold Main.truthy_str.
      destruct (String.eqb_spec (Main.quantitation_matrix o) "")
        as [Hqm|Hqm]; simpl; [discriminate|].
      destruct (Coex.merge_clusters_coex _ _ _ _ _) as [[merged_df|e]|];
        simpl; try discriminate.
      intros H. inversion H; subst exports; clear H. simpl.
      split; [lia|]. split; [discriminate|]. split; [|split].
      * intros name rows [H|[]]. discriminate.
      * intros name rows [H|[]]. discriminate.
      * intros name rows _. repeat split; assumption.
  - intros H. inversion H; subst exports; clear H. simpl.
    split; [lia|]. split; [reflexivity|]. split; [|split].
    + intros name rows [].
    + intros name rows [].
    + intros name rows [].
Qed.

(** The overlap run with a targeted list exports its one table. *)
Lemma main_merge_exports_witness :
  List.length
    [Main.ExportOverlap "merged_cluster_overlap_metabolites_DR_25"
                        [Overlap.mkMergedRow "MC_1" "m1" "m2 g1"]] <= 1.
Proof.
  apply (main_merge_exports targeted_frame targeted_metabolite_df ["m1"] []
           (Ok []) 1 targeted_options
           [Main.ExportOverlap "merged_cluster_overlap_metabolites_DR_25"
                               [Overlap.mkMergedRow "MC_1" "m1" "m2 g1"]]).
  reflexivity.
Defined.

(** ** The fingerprint merger: from the partition to the outcome *)

Lemma column_names_Ok (corr_df : Fingerprint.CorrFrame) :
  forall cluster,
    (forall i, In i cluster -> i < List.length corr_df) ->
    Fingerprint.column_names corr_df cluster
    = Ok (map (fun i => nth i (map fst corr_df) "") cluster).
Proof.
  unfold Fingerprint.column_names.
  induction cluster as [|i cluster IH]; intros Hall; simpl; [reflexivity|].
  assert (Hi : i < List.length (map fst corr_df))
    by (rewrite length_map; apply Hall; now left).
  destruct (nth_error (map fst corr_df) i) as [label|] eqn:Hnth.
  - simpl. rewrite IH by (intros j Hj; apply Hall; now right). simpl.
    now rewrite (nth_error_nth _ _ "" Hnth).
  - apply nth_error_None in Hnth. lia.
Qed.

Lemma column_names_Raise (corr_df : Fingerprint.CorrFrame) :
  forall cluster i,
    In i cluster -> List.length corr_df <= i ->
    Fingerprint.column_names corr_df cluster
    = Raise (IndexError "index out of bounds").
Proof.
  unfold Fingerprint.column_names.
  induction cluster as [|j cluster IH]; intros i Hin Hle; [destruct Hin|].
  simpl. destruct (nth_error (map fst corr_df) j) as [label|] eqn:Hnth;
    [|reflexivity].
  simpl. destruct Hin as [->|Hin].
  - assert (Hn : nth_error (map fst corr_df) i = None)
      by (apply nth_error_None; now rewrite length_map).
    congruence.
  - now rewrite (IH i Hin Hle).
Qed.

(** X20. Line 253 turns the matrix indices of a cluster into index labels:
    when every index is below the size of the matrix the labels at these
    positions come back in order, and an index at or beyond the size is an
    [IndexError]. *)
Theorem column_names_bounds :
  forall corr_df cluster,
    ((forall i, In i cluster -> i < List.length corr_df) ->
     Fingerprint.column_names corr_df cluster
     = Ok (map (fun i => nth i (map fst corr_df) "") cluster))
    /\ ((exists i, In i cluster /\ List.length corr_df <= i) ->
        Fingerprint.column_names corr_df cluster
        = Raise (IndexError "index out of bounds")).
Proof.
  intros corr_df cluster. split.
  - apply column_names_Ok.
  - intros [i [Hin Hle]]. now apply (column_names_Raise corr_df cluster i).
Qed.

(** The two-cluster matrix: positions 1 and 0, and position 2. *)
Lemma column_names_bounds_witness :
  Fingerprint.column_names half_pair [1; 0] = Ok ["B"; "A"]
  /\ Fingerprint.column_names half_pair [0; 2]
     = Raise (IndexError "index out of bounds").
Proof.
  split.
  - apply (proj1 (column_names_bounds half_pair [1; 0])).
    intros i [<-|[<-|[]]]; simpl; lia.
  - apply (proj2 (column_names_bounds half_pair [0; 2])).
    exists 2. split; [right; now left | simpl; lia].
Defined.

(** X21. When the graph libraries succeed and the partitioner reports at
    least one cluster, all of whose indices lie inside the matrix, the
    fingerprint merger ends in the [TypeError] of the call of
    [split_and_match] without its [column] argument. *)
Theorem fingerprinting_partition_raises_TypeError :
  forall (sparse : Type)
         (to_scipy_sparse_array : Fingerprint.Graph -> result sparse)
         (run_mcl : sparse -> result sparse)
         (get_clusters : sparse -> list (list nat))
         raw_df corr_df metabolite_df threshold inflation a r,
    to_scipy_sparse_array (Fingerprint.build_graph corr_df threshold) = Ok a ->
    run_mcl a = Ok r ->
    get_clusters r <> [] ->
    (forall cluster i, In cluster (get_clusters r) -> In i cluster ->
                       i < List.length corr_df) ->
    Fingerprint.merge_clusters_fingerprinting
      sparse to_scipy_sparse_array run_mcl get_clusters
      raw_df corr_df metabolite_df threshold inflation
    = Raise (TypeError
               "split_and_match() missing 1 required positional argument: 'column'").
Proof.
  intros sparse to_sparse run_mcl get_clusters raw_df corr_df metabolite_df
         threshold inflation a r Ha Hr Hne Hidx.
  unfold Fingerprint.merge_clusters_fingerprinting.
  rewrite Ha. simpl. rewrite Hr. simpl.
  assert (Hcols : forall clusters,
            (forall cluster i, In cluster clusters -> In i cluster ->
                               i < List.length corr_df) ->
            mapM (Fingerprint.column_names corr_df) clusters
            = Ok (map (fun cluster =>
                         map (fun i => nth i (map fst corr_df) "") cluster)
                      clusters)).
  { induction clusters as [|c clusters IH]; intros Hall; simpl;
      [reflexivity|].
    rewrite column_names_Ok
      by (intros i Hi; apply (Hall c); [now left | assumption]).
    simpl.
    rewrite IH
      by (intros c' i Hc' Hi; apply (Hall c'); [now right | assumption]).
    reflexivity. }
  rewrite (Hcols _ Hidx). simpl.
  destruct (get_clusters r) as [|c clusters]; [contradiction|].
  reflexivity.
Qed.

(** The two-cluster matrix at threshold 1.0 with a partitioner that keeps
    every node apart. *)
Lemma fingerprinting_partition_raises_TypeError_witness :
  Fingerprint.merge_clusters_fingerprinting
    Fingerprint.Graph nx_to_scipy_sparse_array (fun a => Ok a)
    singleton_clusters [] half_pair [] 1 2
  = Raise (TypeError
             "split_and_match() missing 1 required positional argument: 'column'").
Proof.
  apply (fingerprinting_partition_raises_TypeError
           Fingerprint.Graph nx_to_scipy_sparse_array (fun a => Ok a)
           singleton_clusters [] half_pair [] 1 2
           (Fingerprint.build_graph half_pair 1)
           (Fingerprint.build_graph half_pair 1)).
  - reflexivity.
  - reflexivity.
  - discriminate.
  - intros cluster i Hc Hi. vm_compute in Hc.
    destruct Hc as [<-|[<-|[]]]; destruct Hi as [<-|[]]; simpl; lia.
Defined.
